(** * unsafer: the layout mirror and the raw-memory operators

    A shallow embedding of [unsafer.go].  Machine words are integers,
    memory is a finite map from addresses to cells, and every operator
    is a computation in a small state-and-fault monad over that memory,
    written statement by statement after its Go body. *)

From Stdlib Require Import ZArith List Lia Bool.
From stdpp Require Import base option list gmap fin_maps strings.

Local Open Scope Z_scope.

(** ** Machine words *)

(** A [uintptr] of [w] bits is an integer taken modulo [2^w]. *)
Definition wrap (w x : Z) : Z := x mod 2 ^ w.

(** [^x] on a [w]-bit unsigned word. *)
Definition uintptr_not (w x : Z) : Z := wrap w (Z.lnot x).

(** [const SystemPointerSize = 4 << (^uintptr(0) >> 63)], for a
    [uintptr] of [w] bits.  The constant [4] is untyped, so the left
    shift does not wrap. *)
Definition SystemPointerSize_at (w : Z) : Z :=
  Z.shiftl 4 (Z.shiftr (uintptr_not w 0) 63).

(** The two targets the expression distinguishes. *)
Inductive arch : Set := Arch32 | Arch64.

Definition uintptr_bits (a : arch) : Z :=
  match a with Arch32 => 32 | Arch64 => 64 end.

Definition SystemPointerSize (a : arch) : Z :=
  SystemPointerSize_at (uintptr_bits a).

(** ** Layout mirror: constants *)

(** [type TypeFlag uint8] and its const block. *)
Definition TFlagUncommon : Z := Z.shiftl 1 0.
Definition TFlagExtraStar : Z := Z.shiftl 1 1.
Definition TFlagNamed : Z := Z.shiftl 1 2.
Definition TFlagRegularMemory : Z := Z.shiftl 1 3.

Definition TypeFlags_declared : list Z :=
  [TFlagUncommon; TFlagExtraStar; TFlagNamed; TFlagRegularMemory].

Definition NameExported : Z := 1.
Definition NameFollowedByTagData : Z := 2.
Definition TagDataFollowedByPkgPathNameOffset : Z := 4.

(** [type MapFlag uint8] and its const block. *)
Definition BeingUsedByIterator : Z := 1.
Definition OldBeingUsedByIterator : Z := 2.
Definition BeingWrittenTo : Z := 4.
Definition GrowingToSameSize : Z := 8.

Definition MapFlags_declared : list Z :=
  [BeingUsedByIterator; OldBeingUsedByIterator; BeingWrittenTo;
   GrowingToSameSize].

Definition BucketSize : Z := 8.

(** The special top-hash values, in declaration order. *)
Definition LastEmptyCell : Z := 0.
Definition EmptyCell : Z := 1.
Definition EvacuatedToFirstHalf : Z := 2.
Definition EvacuatedToSecondHalf : Z := 3.
Definition EvacuatedAndEmpty : Z := 4.
Definition MinimumTopHash : Z := 5.

Definition TopHash_sentinels : list Z :=
  [LastEmptyCell; EmptyCell; EvacuatedToFirstHalf; EvacuatedToSecondHalf;
   EvacuatedAndEmpty].

(** A value with exactly one bit set. *)
Definition single_bit (f : Z) : bool :=
  (0 <? f) && (Z.land f (f - 1) =? 0).

(** [type Kind uint8]; the base kinds are [1 + iota]. *)
Definition Kind : Set := Z.

Definition KindBool : Kind := 1 + 0.
Definition KindInt : Kind := 1 + 1.
Definition KindInt8 : Kind := 1 + 2.
Definition KindInt16 : Kind := 1 + 3.
Definition KindInt32 : Kind := 1 + 4.
Definition KindInt64 : Kind := 1 + 5.
Definition KindUint : Kind := 1 + 6.
Definition KindUint8 : Kind := 1 + 7.
Definition KindUint16 : Kind := 1 + 8.
Definition KindUint32 : Kind := 1 + 9.
Definition KindUint64 : Kind := 1 + 10.
Definition KindUintptr : Kind := 1 + 11.
Definition KindFloat32 : Kind := 1 + 12.
Definition KindFloat64 : Kind := 1 + 13.
Definition KindComplex64 : Kind := 1 + 14.
Definition KindComplex128 : Kind := 1 + 15.
Definition KindArray : Kind := 1 + 16.
Definition KindChan : Kind := 1 + 17.
Definition KindFunc : Kind := 1 + 18.
Definition KindInterface : Kind := 1 + 19.
Definition KindMap : Kind := 1 + 20.
Definition KindPointer : Kind := 1 + 21.
Definition KindSlice : Kind := 1 + 22.
Definition KindString : Kind := 1 + 23.
Definition KindStruct : Kind := 1 + 24.
Definition KindUnsafePointer : Kind := 1 + 25.

Definition KindDirectIface : Kind := Z.shiftl 1 5.
Definition KindGCProg : Kind := Z.shiftl 1 6.
Definition KindMask : Kind := Z.shiftl 1 5 - 1.

(** [tt.Type.kind & KindMask] on [uint8] operands. *)
Definition mask_kind (k : Kind) : Kind := Z.land k KindMask.

(** ** NoEscape *)

(** [x := uintptr(p); return unsafe.Pointer(x ^ 0)].  Both conversions
    keep the bits of the word. *)
Definition NoEscape (p : Z) : Z :=
  let x := p in
  Z.lxor x 0.

(** ** Layout mirror: structures *)

(** [TypeInternal], one record per descriptor; function and data
    pointers are words. *)
Record TypeInternal : Set := mkTypeInternal {
  Size : Z;
  PtrData : Z;
  Hash : Z;
  TypeFlags : Z;
  Align : Z;
  FieldAlign : Z;
  kind : Kind;
  Equals : Z;
  GCData : Z;
  Name : Z;
  Pointertype : Z
}.

(** The remaining mirrors are only ever laid over memory that holds a
    Go value, so they are given as the byte offsets of their fields
    (every field is one pointer-sized word; [ps] is the pointer size). *)
Module AnyInternal.
Definition Type_ (ps : Z) : Z := 0.
Definition Data (ps : Z) : Z := ps.
End AnyInternal.

Module StringInternal.
Definition Data (ps : Z) : Z := 0.
Definition Len (ps : Z) : Z := ps.
End StringInternal.

Module SliceInternal.
Definition Data (ps : Z) : Z := 0.
Definition Len (ps : Z) : Z := ps.
Definition Cap (ps : Z) : Z := 2 * ps.
End SliceInternal.

(** ** Go values as the runtime holds them *)

(** An [any]: type word and data word. *)
Record any : Set := mkAny { itype : Z; idata : Z }.

(** A [string]: base pointer and length. *)
Record gostring : Set := mkString { sptr : Z; slen : Z }.

(** A [[]byte]: base pointer, length and capacity. *)
Record byteslice : Set := mkSlice { bptr : Z; blen : Z; bcap : Z }.

Definition any_cells (v : any) : list Z := [itype v; idata v].
Definition string_cells (s : gostring) : list Z := [sptr s; slen s].
Definition slice_cells (s : byteslice) : list Z := [bptr s; blen s; bcap s].

Definition nil_any : any := mkAny 0 0.

(** ** Memory and the operator monad *)

(** One address space of cells.  A cell holds either a byte or a
    pointer-sized word; the words of a variable sit one pointer size
    apart.  Type descriptors live in a read-only table of their own. *)
Record Machine : Type := mkMachine {
  mem : gmap Z Z;
  rodata : gmap Z TypeInternal
}.

Definition with_mem (f : gmap Z Z -> gmap Z Z) (s : Machine) : Machine :=
  mkMachine (f (mem s)) (rodata s).

(** A computation may fault (nil or wild dereference, index out of
    range) or end with a result and a new memory. *)
Definition M (A : Type) : Type := Machine -> option (A * Machine).

Definition ret {A : Type} (a : A) : M A := fun s => Some (a, s).

Definition bind {A B : Type} (c : M A) (k : A -> M B) : M B :=
  fun s => match c s with
           | Some (a, s') => k a s'
           | None => None
           end.

Definition fault {A : Type} : M A := fun _ => None.

Notation "'let*' x ':=' c 'in' k" := (bind c (fun x => k))
  (at level 10, x pattern, c at level 100, k at level 200).

(** The first address above every cell in use (never the nil address). *)
Definition top (m : gmap Z Z) : Z :=
  foldr (fun kv acc => Z.max (kv.1 + 1) acc) 1 (map_to_list m).

(** Lay [vs] out from [base], [stride] apart. *)
Fixpoint put_cells (stride base : Z) (vs : list Z) (m : gmap Z Z)
  : gmap Z Z :=
  match vs with
  | [] => m
  | v :: vs' => <[base := v]> (put_cells stride (base + stride) vs' m)
  end.

(** Fresh storage for [vs]; the address of the first cell. *)
Definition after_alloc (stride : Z) (vs : list Z) (s : Machine) : Machine :=
  with_mem (put_cells stride (top (mem s)) vs) s.

Definition alloc (stride : Z) (vs : list Z) : M Z :=
  fun s => Some (top (mem s), after_alloc stride vs s).

(** The value a computation ends with, if it does not fault. *)
Definition result {A : Type} (c : M A) (s : Machine) : option A :=
  match c s with
  | Some (a, _) => Some a
  | None => None
  end.

(** [s'] has every cell of [s], with its content, and the same
    descriptors. *)
Definition preserves (s s' : Machine) : Prop :=
  rodata s' = rodata s /\
  forall k v, mem s !! k = Some v -> mem s' !! k = Some v.

Definition load (p : Z) : M Z :=
  fun s => match mem s !! p with
           | Some v => Some (v, s)
           | None => None
           end.

Definition store (p v : Z) : M unit :=
  fun s => match mem s !! p with
           | Some _ => Some (tt, with_mem (insert p v) s)
           | None => None
           end.

(** Dereference of a [*TypeInternal].  Descriptors are kept in a table
    of their own, so a type word that addresses anything else is a
    fault here; the machine would read whatever bytes lie there as a
    descriptor.  The properties below either take the descriptor to be
    there or compare two reads through one type word. *)
Definition load_type (p : Z) : M TypeInternal :=
  fun s => match rodata s !! p with
           | Some td => Some (td, s)
           | None => None
           end.

(** [n] consecutive bytes from [p], if all are mapped. *)
Fixpoint load_bytes (m : gmap Z Z) (p : Z) (n : nat) : option (list Z) :=
  match n with
  | O => Some []
  | S k =>
      match m !! p, load_bytes m (p + 1) k with
      | Some b, Some bs => Some (b :: bs)
      | _, _ => None
      end
  end.

(** Overwrite mapped bytes from [p] on. *)
Fixpoint store_bytes (p : Z) (vs : list Z) : M unit :=
  match vs with
  | [] => ret tt
  | v :: vs' => let* _ := store p v in store_bytes (p + 1) vs'
  end.

(** ** The raw-memory operators *)

Section Operators.

Variable tgt : arch.

Let ps : Z := SystemPointerSize tgt.

(** A local variable or parameter whose address is taken. *)
Definition new_var (vs : list Z) : M Z := alloc ps vs.

(** Reading a variable back at type [any] or [string]. *)
Definition load_any (p : Z) : M any :=
  let* ty := load p in
  let* da := load (p + ps) in
  ret (mkAny ty da).

Definition load_string (p : Z) : M gostring :=
  let* da := load p in
  let* ln := load (p + ps) in
  ret (mkString da ln).

(** [tt] is [&t] cast to a pointer to [AnyInternal]: the parameter
    gets storage of its own and [tt] is its address;
    [return uintptr(unsafe.Pointer(tt.Type))]. *)
Definition GetTypePointer (t : any) : M Z :=
  let* pt := new_var (any_cells t) in
  let tt := pt in
  let* ty := load (tt + AnyInternal.Type_ ps) in
  ret ty.

(** [return tt.Type.Hash]: the type word is dereferenced. *)
Definition GetTypeHash (t : any) : M Z :=
  let* pt := new_var (any_cells t) in
  let tt := pt in
  let* ty := load (tt + AnyInternal.Type_ ps) in
  let* td := load_type ty in
  ret (Hash td).

(** [return tt.Type.kind & KindMask]. *)
Definition GetKind (t : any) : M Kind :=
  let* pt := new_var (any_cells t) in
  let tt := pt in
  let* ty := load (tt + AnyInternal.Type_ ps) in
  let* td := load_type ty in
  ret (mask_kind (kind td)).

(** [tt] is [&t1] cast to a pointer to [AnyInternal];
    [tt.Type] is assigned [GetTypePointer(t2)], cast to a pointer to
    [TypeInternal]; [return t1]. *)
Definition Spoof (t1 t2 : any) : M any :=
  let* p1 := new_var (any_cells t1) in
  let tt := p1 in
  let* tp := GetTypePointer t2 in
  let* _ := store (tt + AnyInternal.Type_ ps) tp in
  load_any p1.

(** The named result [value] starts as the nil interface; [a] is
    [&value] cast to a pointer to [AnyInternal]; [a.Data = data];
    [a.Type] is assigned [typePointer], cast to a pointer to
    [TypeInternal]; [return value]. *)
Definition Invent (data typePointer : Z) : M any :=
  let* pv := new_var (any_cells nil_any) in
  let a := pv in
  let* _ := store (a + AnyInternal.Data ps) data in
  let* _ := store (a + AnyInternal.Type_ ps) typePointer in
  load_any pv.

(** [&slice] is cast to a pointer to [string] and dereferenced: the
    first two words of the slice parameter, read as a string. *)
Definition ByteString (slice : byteslice) : M gostring :=
  let* p := new_var (slice_cells slice) in
  load_string p.

End Operators.

(** ** The language operations the claims exercise

    Indexing, [append] and conversion to [any] are Go's own; they are
    modelled here only as far as the properties of [ByteString],
    [GetTypePointer] and [GetKind] refer to them. *)

(** [bytes[i] = v], with the bounds check against the length. *)
Definition slice_set (s : byteslice) (i v : Z) : M unit :=
  if (0 <=? i) && (i <? blen s) then store (bptr s + i) v else fault.

(** [s[i]] on a string. *)
Definition string_at (s : gostring) (i : Z) : M Z :=
  if (0 <=? i) && (i <? slen s) then load (sptr s + i) else fault.

(** The bytes seen through a string view or a slice in a given state. *)
Definition string_content (s : gostring) (st : Machine) : option (list Z) :=
  load_bytes (mem st) (sptr s) (Z.to_nat (slen s)).

Definition slice_content (s : byteslice) (st : Machine) : option (list Z) :=
  load_bytes (mem st) (bptr s) (Z.to_nat (blen s)).

(** A slice whose whole capacity is mapped memory. *)
Definition slice_ok (s : byteslice) (st : Machine) : Prop :=
  0 <= blen s <= bcap s /\
  is_Some (load_bytes (mem st) (bptr s) (Z.to_nat (bcap s))).

Section Append.

(** The runtime's growth policy: the capacity chosen for a slice of
    capacity [c] that must hold [n] elements. *)
Variable growcap : Z -> Z -> Z.

(** [append(s, vs...)]: in place while the capacity suffices,
    otherwise into a fresh backing array that receives a copy. *)
Definition append (s : byteslice) (vs : list Z) : M byteslice :=
  let n := blen s + Z.of_nat (length vs) in
  if n <=? bcap s then
    let* _ := store_bytes (bptr s + blen s) vs in
    ret (mkSlice (bptr s) n (bcap s))
  else
    let c := growcap (bcap s) n in
    fun st =>
      match slice_content s st with
      | Some old =>
          (let* base :=
             alloc 1 (old ++ vs ++ replicate (Z.to_nat (c - n)) 0) in
           ret (mkSlice base n c)) st
      | None => None
      end.

End Append.

(** What the compiler knows of a type and where the linker put its
    descriptor. *)
Record typeinfo : Set := mkTypeinfo {
  ti_addr : Z;
  ti_base : Kind;
  ti_size : Z;
  ti_direct : bool;
  ti_gcprog : bool
}.

(** The kind byte the compiler emits: base kind plus flag bits. *)
Definition emit_kind (ti : typeinfo) : Kind :=
  Z.lor (ti_base ti)
    (Z.lor (if ti_direct ti then KindDirectIface else 0)
           (if ti_gcprog ti then KindGCProg else 0)).

(** The base kinds are [KindBool] .. [KindUnsafePointer]. *)
Definition base_kind (k : Kind) : bool :=
  (KindBool <=? k) && (k <=? KindUnsafePointer).

(** A program image names its types; identical types have one name. *)
Definition image_loaded (img : gmap string typeinfo) (st : Machine) : Prop :=
  map_Forall (fun _ ti =>
    base_kind (ti_base ti) = true /\
    exists td, rodata st !! ti_addr ti = Some td /\
               kind td = emit_kind ti /\ Size td = ti_size ti) img.

(** Conversion of a value of static type [ty], stored at [p], to [any]. *)
Definition conv_any (img : gmap string typeinfo) (ty : string) (p : Z)
  : option any :=
  match img !! ty with
  | Some ti => Some (mkAny (ti_addr ti) p)
  | None => None
  end.

(** [type Kind uint8] as the image must describe it. *)
Definition Kind_name : string := "unsafer.Kind".

Definition declares_Kind (img : gmap string typeinfo) : Prop :=
  exists ti, img !! Kind_name = Some ti /\ ti_base ti = KindUint8.

(** [GetKind(GetKind(t))]: the inner result, a [Kind], is stored and
    converted to [any] for the outer call. *)
Definition GetKind_twice (tgt : arch) (img : gmap string typeinfo) (t : any)
  : M Kind :=
  let* k := GetKind tgt t in
  let* p := alloc 1 [k] in
  match conv_any img Kind_name p with
  | Some kv => GetKind tgt kv
  | None => fault
  end.

(** A caller holding two [any] variables at [pa] and [pb] runs
    [r := Spoof(a, b)]: the arguments are read out of the variables and
    passed by value. *)
Definition call_Spoof (tgt : arch) (pa pb : Z) : M any :=
  let* a := load_any tgt pa in
  let* b := load_any tgt pb in
  Spoof tgt a b.

(** [Invent(ptr, GetTypePointer(x))]. *)
Definition Invent_as (tgt : arch) (ptr : Z) (x : any) : M any :=
  let* tp := GetTypePointer tgt x in
  Invent tgt ptr tp.

(** ** Theorems *)

(** The caller reads the type of the [any] variable at [p]. *)
Definition type_of_var (tgt : arch) (p : Z) : M Z :=
  let* v := load_any tgt p in
  GetTypePointer tgt v.

(** ** A small program, for evaluation *)

(** The descriptor the compiler writes for a type. *)
Definition descriptor_of (ti : typeinfo) : TypeInternal :=
  mkTypeInternal (ti_size ti) 0 0 0 (ti_size ti) (ti_size ti)
                 (emit_kind ti) 0 0 0 0.

Definition demo_types : list (string * typeinfo) :=
  [("int32"%string, mkTypeinfo 4096 KindInt32 4 false false);
   ("string"%string, mkTypeinfo 4160 KindString 16 false false);
   ("main.Celsius"%string, mkTypeinfo 4224 KindFloat64 8 false false);
   ("main.Fahrenheit"%string, mkTypeinfo 4288 KindFloat64 8 false false);
   ("*int32"%string, mkTypeinfo 4352 KindPointer 8 true false);
   (Kind_name, mkTypeinfo 4416 KindUint8 1 false false)].

Definition demo_img : gmap string typeinfo := list_to_map demo_types.

Definition demo_rodata : gmap Z TypeInternal :=
  list_to_map
    (map (fun nt => (ti_addr (snd nt), descriptor_of (snd nt))) demo_types).

(** An [int32] of value 7 at 64, the bytes of "hello" in an array of
    capacity 5 at 80, and two [any] variables of a 64-bit caller: [a] at
    128 holding the [int32], [b] at 144 holding a string whose header
    is at 96. *)
Definition demo_mem : gmap Z Z :=
  put_cells 1 64 [7; 0; 0; 0]
    (put_cells 1 80 [104; 101; 108; 108; 111]
       (put_cells 8 96 [80; 5]
          (put_cells 8 128 [4096; 64]
             (put_cells 8 144 [4160; 96] ∅)))).

Definition demo : Machine := mkMachine demo_mem demo_rodata.

Definition demo_int32 : any := mkAny 4096 64.
Definition demo_string : any := mkAny 4160 96.
Definition demo_slice : byteslice := mkSlice 80 5 5.

(** A growth policy: double, or take what is needed if that is more. *)
Definition demo_growcap (c n : Z) : Z := Z.max (2 * c) n.

(** ** The rest of the layout mirror *)

(** The base kinds of the [Kind] const block, in declaration order. *)
Definition Kinds_declared : list Kind :=
  [KindBool; KindInt; KindInt8; KindInt16; KindInt32; KindInt64; KindUint;
   KindUint8; KindUint16; KindUint32; KindUint64; KindUintptr; KindFloat32;
   KindFloat64; KindComplex64; KindComplex128; KindArray; KindChan; KindFunc;
   KindInterface; KindMap; KindPointer; KindSlice; KindString; KindStruct;
   KindUnsafePointer].

(** The flag bits a kind byte may carry besides its base kind. *)
Definition Kind_flag_sets : list Kind :=
  [0; KindDirectIface; KindGCProg; Z.lor KindDirectIface KindGCProg].

(** Field types, as far as the mirrored structures use them.  [TWord]
    stands for [int], [uintptr], every pointer and every function
    value: one pointer-sized word each. *)
#[local] Unset Elimination Schemes.
Inductive ftype : Set :=
| TUint8
| TUint16
| TUint32
| TInt32
| TInt64
| TWord
| TSlice
| TArray (n : Z) (elem : ftype)
| TStruct (fields : list ftype).
#[local] Set Elimination Schemes.

(** [off] rounded up to a multiple of [al]. *)
Definition align_up (off al : Z) : Z := (off + al - 1) / al * al.

(** The compiler's alignments; a 64-bit integer is aligned to 4 on the
    32-bit targets. *)
Fixpoint alignof (a : arch) (t : ftype) : Z :=
  match t with
  | TUint8 => 1
  | TUint16 => 2
  | TUint32 | TInt32 => 4
  | TInt64 => match a with Arch32 => 4 | Arch64 => 8 end
  | TWord | TSlice => SystemPointerSize a
  | TArray _ e => alignof a e
  | TStruct fs =>
      (fix go (l : list ftype) : Z :=
         match l with
         | [] => 1
         | f :: r => Z.max (alignof a f) (go r)
         end) fs
  end.

(** Fields are placed in order, each at the next multiple of its
    alignment; a structure's size is rounded up to its alignment. *)
Fixpoint sizeof (a : arch) (t : ftype) : Z :=
  match t with
  | TUint8 => 1
  | TUint16 => 2
  | TUint32 | TInt32 => 4
  | TInt64 => 8
  | TWord => SystemPointerSize a
  | TSlice => 3 * SystemPointerSize a
  | TArray n e => n * sizeof a e
  | TStruct fs =>
      align_up
        ((fix go (off : Z) (l : list ftype) : Z :=
            match l with
            | [] => off
            | f :: r => go (align_up off (alignof a f) + sizeof a f) r
            end) 0 fs)
        (alignof a (TStruct fs))
  end.

(** [unsafe.Offsetof] of every field of a structure. *)
Fixpoint offsets_from (a : arch) (off : Z) (fs : list ftype) : list Z :=
  match fs with
  | [] => []
  | f :: r =>
      align_up off (alignof a f)
      :: offsets_from a (align_up off (alignof a f) + sizeof a f) r
  end.

Definition field_offsets (a : arch) (fs : list ftype) : list Z :=
  offsets_from a 0 fs.

(** The sum of the fields' own sizes: what the structure would take
    without any padding. *)
Definition packed_size (a : arch) (fs : list ftype) : Z :=
  foldr (fun f acc => sizeof a f + acc) 0 fs.

(** The mirrored structures, field by field. *)
Definition StringInternal_fields : list ftype := [TWord; TWord].
Definition SliceInternal_fields : list ftype := [TWord; TWord; TWord].
Definition AnyInternal_fields : list ftype := [TWord; TWord].
Definition InterfaceInternal_fields : list ftype := [TWord; TWord].
Definition EncodedName_fields : list ftype := [TWord].

Definition TypeInternal_fields : list ftype :=
  [TWord; TWord; TUint32; TUint8; TUint8; TUint8; TUint8; TWord; TWord;
   TInt32; TInt32].

Definition MapInternal_fields : list ftype :=
  [TWord; TUint8; TUint8; TUint16; TUint32; TWord; TWord; TWord; TWord].

Definition MapOverflow_fields : list ftype := [TWord; TWord; TWord].

Definition BucketInternal_fields : list ftype := [TArray BucketSize TUint8].

Definition InterfaceDescription_fields : list ftype :=
  [TWord; TWord; TUint32; TArray 4 TUint8; TArray 1 TWord].

Definition InterfaceMethod_fields : list ftype := [TInt32; TInt32].

Definition ITypeInternal_fields : list ftype :=
  [TStruct TypeInternal_fields; TStruct EncodedName_fields; TSlice].

(** [const BucketDataStart]: the offset of [v] in a structure of a
    [BucketInternal] followed by an [int64]. *)
Definition BucketDataStart (a : arch) : Z :=
  default 0 (field_offsets a [TStruct BucketInternal_fields; TInt64]
               !! 1%nat).

(** *** Words and constants *)

Lemma SystemPointerSize_pos (tgt : arch) : 0 < SystemPointerSize tgt.
Proof. destruct tgt; vm_compute; reflexivity. Qed.

(** *** Allocation *)

Lemma top_foldr_above (l : list (Z * Z)) (k v : Z) :
  (k, v) ∈ l -> k < foldr (fun kv acc => Z.max (kv.1 + 1) acc) 1 l.
Proof.
  induction l as [|[k' v'] l IH]; intros Hin.
  - inversion Hin.
  - apply elem_of_cons in Hin as [Heq | Hin]; simpl.
    + inversion Heq; subst. lia.
    + specialize (IH Hin). lia.
Qed.

Lemma top_above (m : gmap Z Z) (k v : Z) : m !! k = Some v -> k < top m.
Proof.
  intros Hk. unfold top. apply (top_foldr_above _ k v).
  by apply elem_of_map_to_list.
Qed.

Lemma top_fresh (m : gmap Z Z) (k : Z) : top m <= k -> m !! k = None.
Proof.
  intros Hle. destruct (m !! k) as [v|] eqn:E; [|done].
  apply top_above in E. lia.
Qed.

Lemma put_cells_old (stride base : Z) (vs : list Z) (m : gmap Z Z) (k : Z) :
  0 < stride -> k < base -> put_cells stride base vs m !! k = m !! k.
Proof.
  intros Hs. revert base. induction vs as [|v vs IH]; intros base Hk; simpl.
  - done.
  - rewrite lookup_insert_ne by lia. apply IH. lia.
Qed.

Lemma put_cells_new (stride base : Z) (vs : list Z) (m : gmap Z Z)
      (i : nat) (v : Z) :
  0 < stride -> vs !! i = Some v ->
  put_cells stride base vs m !! (base + Z.of_nat i * stride) = Some v.
Proof.
  intros Hs. revert base i. induction vs as [|w vs IH]; intros base i Hi.
  - done.
  - destruct i as [|i]; cbn [put_cells].
    + inversion Hi; subst. rewrite Z.add_0_r. apply lookup_insert_eq.
    + rewrite Nat2Z.inj_succ. rewrite lookup_insert_ne by nia.
      replace (base + Z.succ (Z.of_nat i) * stride)
        with ((base + stride) + Z.of_nat i * stride) by lia.
      by apply IH.
Qed.

Lemma put_cells_kept (stride : Z) (vs : list Z) (m : gmap Z Z) (k v : Z) :
  0 < stride -> m !! k = Some v ->
  put_cells stride (top m) vs m !! k = Some v.
Proof.
  intros Hs Hk. rewrite put_cells_old; [done | done |].
  by eapply top_above.
Qed.

(** *** Stepping through a computation *)

Lemma bind_Some {A B : Type} (c : M A) (k : A -> M B) (s s' : Machine)
      (a : A) :
  c s = Some (a, s') -> bind c k s = k a s'.
Proof. intros H. unfold bind. by rewrite H. Qed.

Lemma load_Some (p v : Z) (s : Machine) :
  mem s !! p = Some v -> load p s = Some (v, s).
Proof. intros H. unfold load. by rewrite H. Qed.

Lemma store_Some (p v w : Z) (s : Machine) :
  mem s !! p = Some w -> store p v s = Some (tt, with_mem (insert p v) s).
Proof. intros H. unfold store. by rewrite H. Qed.

Lemma load_type_Some (p : Z) (td : TypeInternal) (s : Machine) :
  rodata s !! p = Some td -> load_type p s = Some (td, s).
Proof. intros H. unfold load_type. by rewrite H. Qed.

Lemma preserves_refl (s : Machine) : preserves s s.
Proof. by split. Qed.

Lemma preserves_trans (s1 s2 s3 : Machine) :
  preserves s1 s2 -> preserves s2 s3 -> preserves s1 s3.
Proof.
  intros [R1 M1] [R2 M2]. split; [congruence | auto].
Qed.

Lemma preserves_alloc (stride : Z) (vs : list Z) (s : Machine) :
  0 < stride -> preserves s (after_alloc stride vs s).
Proof.
  intros Hs. split; [done |]. intros k v Hk. simpl.
  by apply put_cells_kept.
Qed.

Lemma after_alloc_cell (stride : Z) (vs : list Z) (s : Machine)
      (i : nat) (v : Z) :
  0 < stride -> vs !! i = Some v ->
  mem (after_alloc stride vs s) !! (top (mem s) + Z.of_nat i * stride)
  = Some v.
Proof. intros Hs Hi. simpl. by apply put_cells_new. Qed.

Lemma load_bytes_preserved (s s' : Machine) (p : Z) (n : nat) (bs : list Z) :
  preserves s s' ->
  load_bytes (mem s) p n = Some bs -> load_bytes (mem s') p n = Some bs.
Proof.
  intros [_ Hm]. revert p bs. induction n as [|n IH]; intros p bs; simpl.
  - done.
  - destruct (mem s !! p) as [b|] eqn:Eb; [|done].
    destruct (load_bytes (mem s) (p + 1) n) as [l|] eqn:El; [|done].
    intros [= <-]. by rewrite (Hm _ _ Eb), (IH _ _ El).
Qed.

(** *** The operators, run *)

Section Runs.

Variable tgt : arch.

Let ps : Z := SystemPointerSize tgt.

Lemma GetTypePointer_run (t : any) (s : Machine) :
  GetTypePointer tgt t s = Some (itype t, after_alloc ps (any_cells t) s).
Proof.
  unfold GetTypePointer, new_var.
  erewrite bind_Some by reflexivity.
  erewrite bind_Some; [reflexivity |].
  apply load_Some. unfold AnyInternal.Type_.
  pose proof (after_alloc_cell ps (any_cells t) s 0 (itype t)
                (SystemPointerSize_pos tgt) eq_refl) as H.
  by rewrite Z.mul_0_l in H.
Qed.

Lemma var_cell0 (vs : list Z) (v : Z) (s : Machine) :
  vs !! 0%nat = Some v ->
  mem (after_alloc ps vs s) !! (top (mem s)) = Some v.
Proof.
  intros Hv.
  pose proof (after_alloc_cell ps vs s 0 v (SystemPointerSize_pos tgt) Hv)
    as H.
  by rewrite Z.mul_0_l, Z.add_0_r in H.
Qed.

Lemma var_cell1 (vs : list Z) (v : Z) (s : Machine) :
  vs !! 1%nat = Some v ->
  mem (after_alloc ps vs s) !! (top (mem s) + ps) = Some v.
Proof.
  intros Hv.
  pose proof (after_alloc_cell ps vs s 1 v (SystemPointerSize_pos tgt) Hv)
    as H.
  by rewrite Z.mul_1_l in H.
Qed.

Lemma GetTypeHash_run (t : any) (td : TypeInternal) (s : Machine) :
  rodata s !! itype t = Some td ->
  GetTypeHash tgt t s = Some (Hash td, after_alloc ps (any_cells t) s).
Proof.
  intros Htd. unfold GetTypeHash, new_var.
  erewrite bind_Some by reflexivity.
  erewrite bind_Some.
  2:{ apply load_Some. unfold AnyInternal.Type_. rewrite Z.add_0_r.
      by apply var_cell0. }
  erewrite bind_Some; [reflexivity |]. by apply load_type_Some.
Qed.

Lemma GetKind_run (t : any) (td : TypeInternal) (s : Machine) :
  rodata s !! itype t = Some td ->
  GetKind tgt t s
  = Some (mask_kind (kind td), after_alloc ps (any_cells t) s).
Proof.
  intros Htd. unfold GetKind, new_var.
  erewrite bind_Some by reflexivity.
  erewrite bind_Some.
  2:{ apply load_Some. unfold AnyInternal.Type_. rewrite Z.add_0_r.
      by apply var_cell0. }
  erewrite bind_Some; [reflexivity |]. by apply load_type_Some.
Qed.

(** Reading back a variable of two words whose cells are known. *)
Lemma load_any_run (p ty da : Z) (s : Machine) :
  mem s !! p = Some ty -> mem s !! (p + ps) = Some da ->
  load_any tgt p s = Some (mkAny ty da, s).
Proof.
  intros H0 H1. unfold load_any.
  erewrite bind_Some by (by apply load_Some).
  erewrite bind_Some by (by apply load_Some).
  reflexivity.
Qed.

Lemma load_string_run (p da ln : Z) (s : Machine) :
  mem s !! p = Some da -> mem s !! (p + ps) = Some ln ->
  load_string tgt p s = Some (mkString da ln, s).
Proof.
  intros H0 H1. unfold load_string.
  erewrite bind_Some by (by apply load_Some).
  erewrite bind_Some by (by apply load_Some).
  reflexivity.
Qed.

(** The memory [Spoof] leaves: its own copy of [t1] with the type
    word overwritten, above the copy [GetTypePointer] made of [t2]. *)
Lemma Spoof_run (t1 t2 : any) (s : Machine) :
  Spoof tgt t1 t2 s
  = Some (mkAny (itype t2) (idata t1),
          with_mem (insert (top (mem s)) (itype t2))
            (after_alloc ps (any_cells t2)
               (after_alloc ps (any_cells t1) s))).
Proof.
  pose proof (SystemPointerSize_pos tgt) as Hps. fold ps in Hps.
  unfold Spoof, new_var.
  erewrite bind_Some by reflexivity.
  erewrite bind_Some by apply GetTypePointer_run.
  set (s1 := after_alloc ps (any_cells t1) s).
  set (s2 := after_alloc ps (any_cells t2) s1).
  assert (H1 : preserves s1 s2) by (by apply preserves_alloc).
  unfold AnyInternal.Type_. rewrite Z.add_0_r.
  erewrite bind_Some.
  2:{ eapply store_Some. apply H1. by apply var_cell0. }
  apply load_any_run; cbn [with_mem mem].
  - apply lookup_insert_eq.
  - rewrite lookup_insert_ne by lia.
    apply (proj2 H1). by apply var_cell1.
Qed.

Lemma Invent_run (data typePointer : Z) (s : Machine) :
  Invent tgt data typePointer s
  = Some (mkAny typePointer data,
          with_mem (insert (top (mem s)) typePointer)
            (with_mem (insert (top (mem s) + ps) data)
               (after_alloc ps (any_cells nil_any) s))).
Proof.
  pose proof (SystemPointerSize_pos tgt) as Hps. fold ps in Hps.
  unfold Invent, new_var.
  erewrite bind_Some by reflexivity.
  unfold AnyInternal.Type_, AnyInternal.Data. rewrite Z.add_0_r.
  erewrite bind_Some.
  2:{ eapply store_Some. by apply var_cell1. }
  erewrite bind_Some.
  2:{ eapply store_Some. cbn [with_mem mem]. rewrite lookup_insert_ne by lia.
      by apply var_cell0. }
  apply load_any_run; cbn [with_mem mem].
  - apply lookup_insert_eq.
  - rewrite lookup_insert_ne by lia. apply lookup_insert_eq.
Qed.

Lemma ByteString_run (slice : byteslice) (s : Machine) :
  ByteString tgt slice s
  = Some (mkString (bptr slice) (blen slice),
          after_alloc ps (slice_cells slice) s).
Proof.
  unfold ByteString, new_var.
  erewrite bind_Some by reflexivity.
  apply load_string_run.
  - by apply var_cell0.
  - by apply var_cell1.
Qed.

End Runs.

(** *** The mirrors against the runtime's layout *)

(** A [string] variable read through [StringInternal], a slice variable
    through [SliceInternal] and an [any] variable through
    [AnyInternal] give the fields of the value stored there. *)
Lemma StringInternal_mirrors_string (tgt : arch) (v : gostring)
      (s : Machine) :
  let ps := SystemPointerSize tgt in
  let s' := after_alloc ps (string_cells v) s in
  mem s' !! (top (mem s) + StringInternal.Data ps) = Some (sptr v) /\
  mem s' !! (top (mem s) + StringInternal.Len ps) = Some (slen v).
Proof.
  cbv zeta. unfold StringInternal.Data, StringInternal.Len.
  rewrite Z.add_0_r. split; [by apply var_cell0 | by apply var_cell1].
Qed.

Lemma SliceInternal_mirrors_slice (tgt : arch) (v : byteslice)
      (s : Machine) :
  let ps := SystemPointerSize tgt in
  let s' := after_alloc ps (slice_cells v) s in
  mem s' !! (top (mem s) + SliceInternal.Data ps) = Some (bptr v) /\
  mem s' !! (top (mem s) + SliceInternal.Len ps) = Some (blen v) /\
  mem s' !! (top (mem s) + SliceInternal.Cap ps) = Some (bcap v).
Proof.
  cbv zeta. unfold SliceInternal.Data, SliceInternal.Len, SliceInternal.Cap.
  rewrite Z.add_0_r.
  split; [by apply var_cell0 |]. split; [by apply var_cell1 |].
  pose proof (after_alloc_cell (SystemPointerSize tgt) (slice_cells v) s 2
                (bcap v) (SystemPointerSize_pos tgt) eq_refl) as H.
  exact H.
Qed.

Lemma AnyInternal_mirrors_any (tgt : arch) (v : any) (s : Machine) :
  let ps := SystemPointerSize tgt in
  let s' := after_alloc ps (any_cells v) s in
  mem s' !! (top (mem s) + AnyInternal.Type_ ps) = Some (itype v) /\
  mem s' !! (top (mem s) + AnyInternal.Data ps) = Some (idata v).
Proof.
  cbv zeta. unfold AnyInternal.Type_, AnyInternal.Data.
  rewrite Z.add_0_r. split; [by apply var_cell0 | by apply var_cell1].
Qed.

(** The operators on the demonstration memory. *)
Example GetTypePointer_demo :
  result (GetTypePointer Arch64 demo_int32) demo = Some 4096 /\
  result (GetTypePointer Arch32 demo_string) demo = Some 4160.
Proof. split; vm_compute; reflexivity. Qed.

Example Spoof_demo :
  result (Spoof Arch64 demo_int32 demo_string) demo = Some (mkAny 4160 64).
Proof. vm_compute. reflexivity. Qed.

Example Invent_demo :
  result (Invent Arch64 80 4096) demo = Some (mkAny 4096 80).
Proof. vm_compute. reflexivity. Qed.

Example ByteString_demo :
  result (ByteString Arch64 demo_slice) demo = Some (mkString 80 5).
Proof. vm_compute. reflexivity. Qed.

(** A nil interface has no descriptor: [GetTypePointer] returns the nil
    address, while [GetKind] and [GetTypeHash] fault on dereferencing
    it. *)
Example nil_interface_demo :
  result (GetTypePointer Arch64 nil_any) demo = Some 0 /\
  GetKind Arch64 nil_any demo = None /\
  GetTypeHash Arch64 nil_any demo = None.
Proof. repeat split; vm_compute; reflexivity. Qed.

(** *** Frames of the operators *)

Lemma preserves_insert_fresh (s : Machine) (s' : Machine) (p v : Z) :
  preserves s s' -> mem s !! p = None ->
  preserves s (with_mem (insert p v) s').
Proof.
  intros [Hr Hm] Hp. split; [done |]. intros k w Hk.
  cbn [with_mem mem]. rewrite lookup_insert_ne; [by apply Hm | congruence].
Qed.

Lemma Spoof_preserves (tgt : arch) (t1 t2 r : any) (s s' : Machine) :
  Spoof tgt t1 t2 s = Some (r, s') -> preserves s s'.
Proof.
  rewrite Spoof_run. intros [= _ <-].
  pose proof (SystemPointerSize_pos tgt) as Hps.
  apply preserves_insert_fresh.
  - eapply preserves_trans; by apply preserves_alloc.
  - apply top_fresh. lia.
Qed.

Lemma GetTypePointer_result (tgt : arch) (t : any) (s : Machine) :
  result (GetTypePointer tgt t) s = Some (itype t).
Proof. unfold result. by rewrite GetTypePointer_run. Qed.

(** ** The claims *)

(** C1: for all values [a] and [b], [Spoof(a, b)] returns a value on
    which [GetTypePointer] reports what it reports on [b], whose data
    pointer is [a]'s, and through which every run of payload bytes
    readable from [a] before the call (so in particular the bytes
    within [a]'s size) reads the same afterwards. *)
Theorem Spoof_forges_type_keeps_payload (tgt : arch) (a b : any)
        (s : Machine) :
  exists r s',
    Spoof tgt a b s = Some (r, s') /\
    (forall s1 s2,
        result (GetTypePointer tgt r) s1 = Some (itype b) /\
        result (GetTypePointer tgt b) s2 = Some (itype b)) /\
    idata r = idata a /\
    forall n bs,
      load_bytes (mem s) (idata a) n = Some bs ->
      load_bytes (mem s') (idata r) n = Some bs.
Proof.
  eexists _, _. split; [apply Spoof_run |].
  split; [|split].
  - intros s1 s2. by rewrite !GetTypePointer_result.
  - reflexivity.
  - intros n bs Hbs. cbn [idata].
    eapply load_bytes_preserved; [|exact Hbs].
    eapply Spoof_preserves. apply Spoof_run.
Qed.

Lemma Spoof_forges_type_keeps_payload_witness :
  load_bytes (mem demo) (idata demo_int32) 4 = Some [7; 0; 0; 0] /\
  exists r s',
    Spoof Arch64 demo_int32 demo_string demo = Some (r, s') /\
    result (GetTypePointer Arch64 r) s' = Some 4160 /\
    load_bytes (mem s') (idata r) 4 = Some [7; 0; 0; 0].
Proof.
  split; [vm_compute; reflexivity |].
  destruct (Spoof_forges_type_keeps_payload Arch64 demo_int32 demo_string demo)
    as (r & s' & Hrun & Hty & Hda & Hbytes).
  exists r, s'. split; [exact Hrun |]. split.
  - apply (Hty s' s').
  - apply Hbytes. vm_compute; reflexivity.
Defined.

(** C2: for every value [x] and every pointer [ptr],
    [Invent(ptr, GetTypePointer(x))] returns a value whose data pointer
    is [ptr] and on which [GetTypePointer] reports what it reports on
    [x]. *)
Theorem Invent_round_trip (tgt : arch) (ptr : Z) (x : any) (s : Machine) :
  exists r s',
    Invent_as tgt ptr x s = Some (r, s') /\
    idata r = ptr /\
    forall s1 s2,
      result (GetTypePointer tgt r) s1 = result (GetTypePointer tgt x) s2.
Proof.
  unfold Invent_as.
  erewrite bind_Some by apply GetTypePointer_run.
  eexists _, _. split; [apply Invent_run |].
  split; [reflexivity |].
  intros s1 s2. by rewrite !GetTypePointer_result.
Qed.

(** C3: for every byte slice, [ByteString] returns a string with the
    slice's base pointer and the slice's length at the call, and the
    content read through it is the buffer's content at the call. *)
Theorem ByteString_shares_buffer (tgt : arch) (sl : byteslice)
        (s : Machine) :
  exists v s',
    ByteString tgt sl s = Some (v, s') /\
    sptr v = bptr sl /\
    slen v = blen sl /\
    forall bs, slice_content sl s = Some bs -> string_content v s' = Some bs.
Proof.
  eexists _, _. split; [apply ByteString_run |].
  split; [reflexivity |]. split; [reflexivity |].
  intros bs Hbs. unfold string_content, slice_content in *. cbn [sptr slen].
  eapply load_bytes_preserved; [|exact Hbs].
  apply preserves_alloc, SystemPointerSize_pos.
Qed.

Lemma ByteString_shares_buffer_witness :
  slice_content demo_slice demo = Some [104; 101; 108; 108; 111] /\
  exists v s',
    ByteString Arch64 demo_slice demo = Some (v, s') /\
    string_content v s' = Some [104; 101; 108; 108; 111].
Proof.
  split; [vm_compute; reflexivity |].
  destruct (ByteString_shares_buffer Arch64 demo_slice demo)
    as (v & s' & Hrun & _ & _ & Hbs).
  exists v, s'. split; [exact Hrun |].
  apply Hbs. vm_compute; reflexivity.
Defined.

(** C7: for every pointer [p], [NoEscape(p)] is [p], bit for bit. *)
Theorem NoEscape_identity (p : Z) :
  NoEscape p = p /\ forall i, Z.testbit (NoEscape p) i = Z.testbit p i.
Proof.
  assert (H : NoEscape p = p) by (unfold NoEscape; apply Z.lxor_0_r).
  split; [exact H |]. intros i. by rewrite H.
Qed.

(** C8: [4 << (^uintptr(0) >> 63)] is 8 for a 64-bit [uintptr] and 4 for
    a 32-bit one: the pointer width in bytes. *)
Theorem SystemPointerSize_is_pointer_width :
  SystemPointerSize_at 64 = 8 /\
  SystemPointerSize_at 32 = 4 /\
  forall a, 8 * SystemPointerSize a = uintptr_bits a.
Proof.
  split; [reflexivity |]. split; [reflexivity |].
  intros []; reflexivity.
Qed.

(** C10: a caller that passes its variable [a] to [Spoof] finds the
    variable as it was: it reads the same header and reports its own
    type, every cell the caller had is unchanged, and only the returned
    value carries [b]'s type. *)
Theorem Spoof_leaves_caller_value (tgt : arch) (pa pb : Z) (a b : any)
        (s : Machine) :
  load_any tgt pa s = Some (a, s) ->
  load_any tgt pb s = Some (b, s) ->
  exists r s',
    call_Spoof tgt pa pb s = Some (r, s') /\
    load_any tgt pa s' = Some (a, s') /\
    result (type_of_var tgt pa) s' = Some (itype a) /\
    result (GetTypePointer tgt r) s' = Some (itype b) /\
    forall k v, mem s !! k = Some v -> mem s' !! k = Some v.
Proof.
  intros Ha Hb. unfold call_Spoof.
  erewrite bind_Some by exact Ha.
  erewrite bind_Some by exact Hb.
  eexists _, _. split; [apply Spoof_run |].
  set (s' := with_mem _ _).
  assert (Hp : preserves s s').
  { eapply Spoof_preserves. apply Spoof_run. }
  assert (Ha' : load_any tgt pa s' = Some (a, s')).
  { unfold load_any, bind, load in Ha.
    destruct (mem s !! pa) as [ty|] eqn:E0; [|done].
    destruct (mem s !! (pa + SystemPointerSize tgt)) as [da|] eqn:E1;
      [|done].
    inversion Ha; subst a.
    apply load_any_run; by apply Hp. }
  split; [exact Ha' |]. split; [|split].
  - unfold result, type_of_var. erewrite bind_Some by exact Ha'.
    by rewrite GetTypePointer_run.
  - by rewrite GetTypePointer_result.
  - apply Hp.
Qed.

Lemma Spoof_leaves_caller_value_witness :
  exists r s',
    call_Spoof Arch64 128 144 demo = Some (r, s') /\
    load_any Arch64 128 s' = Some (demo_int32, s') /\
    result (type_of_var Arch64 128) s' = Some 4096 /\
    result (GetTypePointer Arch64 r) s' = Some 4160.
Proof.
  destruct (Spoof_leaves_caller_value Arch64 128 144 demo_int32 demo_string
              demo) as (r & s' & Hrun & Hvar & Hty & Hr & _).
  - vm_compute; reflexivity.
  - vm_compute; reflexivity.
  - exists r, s'. repeat split; assumption.
Defined.

(** *** The demonstration image *)

Lemma demo_img_cases (n : string) (ti : typeinfo) :
  demo_img !! n = Some ti -> (n, ti) ∈ demo_types.
Proof. apply elem_of_list_to_map_2. Qed.

Lemma demo_image_loaded : image_loaded demo_img demo.
Proof.
  intros n ti H. apply demo_img_cases in H. unfold demo_types in H.
  repeat (apply elem_of_cons in H as [H | H]; [inversion H; subst |]);
    [..| by apply elem_of_nil in H];
    (split; [reflexivity |]; eexists; split; [vm_compute; reflexivity |];
     split; reflexivity).
Qed.



(** C9 as worded, with five map-state flags, does not hold of the
    declared constants: the [MapFlag] block declares four. *)
Lemma wire_contract_five_map_flags_refuted :
  ~ (BucketSize = 8 /\
     TopHash_sentinels = [0; 1; 2; 3; 4] /\
     MinimumTopHash = 5 /\
     (length MapFlags_declared = 5%nat /\ NoDup MapFlags_declared /\
      forallb single_bit MapFlags_declared = true) /\
     (length TypeFlags_declared = 4%nat /\ NoDup TypeFlags_declared /\
      forallb single_bit TypeFlags_declared = true)).
Proof. intros (_ & _ & _ & (Hlen & _) & _). discriminate Hlen. Qed.

(** C9, amended: [BucketSize] is 8; the special top-hash values are 0
    to 4 in declaration order and [MinimumTopHash] is 5; the map-state
    flags are the four distinct single bits 1, 2, 4, 8; the type flags
    are the four distinct single bits 1, 2, 4, 8. *)
Theorem wire_contract_constants :
  BucketSize = 8 /\
  TopHash_sentinels = [0; 1; 2; 3; 4] /\
  MinimumTopHash = 5 /\
  (MapFlags_declared = [1; 2; 4; 8] /\
   length MapFlags_declared = 4%nat /\ NoDup MapFlags_declared /\
   forallb single_bit MapFlags_declared = true) /\
  (TypeFlags_declared = [1; 2; 4; 8] /\
   length TypeFlags_declared = 4%nat /\ NoDup TypeFlags_declared /\
   forallb single_bit TypeFlags_declared = true).
Proof.
  assert (Hnd : NoDup [1; 2; 4; 8]).
  { apply (bool_decide_unpack _). vm_compute. exact I. }
  repeat split; try reflexivity; exact Hnd.
Qed.

(** *** Kind bytes *)

Lemma KindMask_ones : KindMask = Z.ones 5.
Proof. reflexivity. Qed.

Lemma mask_kind_small (k : Kind) : 0 <= k < 32 -> mask_kind k = k.
Proof.
  intros Hk. unfold mask_kind. rewrite KindMask_ones, Z.land_ones by lia.
  apply Z.mod_small. change (2 ^ 5) with 32. lia.
Qed.

Lemma mask_kind_range (k : Kind) : 0 <= mask_kind k < 32.
Proof.
  unfold mask_kind. rewrite KindMask_ones, Z.land_ones by lia.
  change (2 ^ 5) with 32. apply Z.mod_pos_bound. lia.
Qed.

Lemma mask_kind_idem (k : Kind) : mask_kind (mask_kind k) = mask_kind k.
Proof. apply mask_kind_small, mask_kind_range. Qed.

Lemma mask_kind_no_flags (k : Kind) :
  Z.land (mask_kind k) KindDirectIface = 0 /\
  Z.land (mask_kind k) KindGCProg = 0.
Proof.
  unfold mask_kind. rewrite <- !Z.land_assoc.
  change (Z.land KindMask KindDirectIface) with 0.
  change (Z.land KindMask KindGCProg) with 0.
  by rewrite Z.land_0_r.
Qed.

Lemma base_kind_range (k : Kind) : base_kind k = true -> 0 <= k < 32.
Proof.
  unfold base_kind, KindBool, KindUnsafePointer.
  intros H. apply andb_true_iff in H as [H1 H2]. lia.
Qed.

Lemma mask_emit_kind (ti : typeinfo) :
  base_kind (ti_base ti) = true -> mask_kind (emit_kind ti) = ti_base ti.
Proof.
  intros Hb. apply base_kind_range in Hb.
  unfold emit_kind, mask_kind. rewrite !Z.land_lor_distr_l.
  fold (mask_kind (ti_base ti)). rewrite mask_kind_small by exact Hb.
  destruct (ti_direct ti), (ti_gcprog ti);
    change (Z.land KindDirectIface KindMask) with 0;
    change (Z.land KindGCProg KindMask) with 0;
    change (Z.land 0 KindMask) with 0;
    by rewrite !Z.lor_0_r.
Qed.

(** C6 as worded fails on its last clause: [GetKind] of an [int32] is
    [KindInt32], and [GetKind] of that result, a [Kind], is
    [KindUint8]. *)
Lemma GetKind_of_GetKind_differs :
  result (GetKind Arch64 demo_int32) demo = Some KindInt32 /\
  result (GetKind_twice Arch64 demo_img demo_int32) demo = Some KindUint8 /\
  result (GetKind_twice Arch64 demo_img demo_int32) demo
  <> result (GetKind Arch64 demo_int32) demo.
Proof.
  assert (H1 : result (GetKind Arch64 demo_int32) demo = Some KindInt32)
    by (vm_compute; reflexivity).
  assert (H2 : result (GetKind_twice Arch64 demo_img demo_int32) demo
               = Some KindUint8) by (vm_compute; reflexivity).
  split; [exact H1 |]. split; [exact H2 |].
  rewrite H1, H2. discriminate.
Qed.

(** C6, amended: for every value whose type the image describes,
    [GetKind] returns the kind byte of its descriptor with the flag
    bits [KindDirectIface] and [KindGCProg] masked off, which is the
    base kind the type was declared with (an [int32] reports
    [KindInt32]); masking the result again, or calling [GetKind] on the
    same value again, gives the same kind; and [GetKind] applied to the
    result of [GetKind] reports [KindUint8], the kind of [Kind]
    itself. *)
Theorem GetKind_reports_base_kind (tgt : arch) (img : gmap string typeinfo)
        (n : string) (ti : typeinfo) (v : any) (s : Machine) :
  image_loaded img s ->
  declares_Kind img ->
  img !! n = Some ti ->
  itype v = ti_addr ti ->
  exists td s',
    rodata s !! itype v = Some td /\
    GetKind tgt v s = Some (mask_kind (kind td), s') /\
    mask_kind (kind td) = ti_base ti /\
    Z.land (mask_kind (kind td)) KindDirectIface = 0 /\
    Z.land (mask_kind (kind td)) KindGCProg = 0 /\
    mask_kind (mask_kind (kind td)) = mask_kind (kind td) /\
    result (GetKind tgt v) s' = Some (ti_base ti) /\
    result (GetKind_twice tgt img v) s = Some KindUint8.
Proof.
  intros Himg (tk & Hk & Hku) Hn Hv.
  destruct (Himg _ _ Hn) as (Hb & td & Htd & Hkind & _).
  destruct (Himg _ _ Hk) as (Hbk & tdk & Htdk & Hkindk & _).
  rewrite <- Hv in Htd.
  assert (Hmask : mask_kind (kind td) = ti_base ti)
    by (rewrite Hkind; by apply mask_emit_kind).
  assert (Hmaskk : mask_kind (kind tdk) = KindUint8)
    by (rewrite Hkindk, <- Hku; by apply mask_emit_kind).
  exists td, (after_alloc (SystemPointerSize tgt) (any_cells v) s).
  split; [exact Htd |]. split; [by apply GetKind_run |].
  split; [exact Hmask |].
  split; [apply mask_kind_no_flags |]. split; [apply mask_kind_no_flags |].
  split; [apply mask_kind_idem |]. split.
  - unfold result. erewrite GetKind_run by exact Htd. by rewrite Hmask.
  - unfold result, GetKind_twice.
    erewrite bind_Some by (by apply GetKind_run).
    erewrite bind_Some by reflexivity.
    unfold conv_any. rewrite Hk.
    erewrite GetKind_run by exact Htdk. by rewrite Hmaskk.
Qed.

Lemma GetKind_reports_base_kind_witness :
  exists s',
    GetKind Arch64 demo_int32 demo = Some (KindInt32, s') /\
    result (GetKind Arch64 demo_int32) s' = Some KindInt32 /\
    result (GetKind_twice Arch64 demo_img demo_int32) demo = Some KindUint8.
Proof.
  destruct (GetKind_reports_base_kind Arch64 demo_img "int32"
              (mkTypeinfo 4096 KindInt32 4 false false) demo_int32 demo)
    as (td & s' & _ & Hrun & Hbase & _ & _ & _ & Hagain & Htwice).
  - exact demo_image_loaded.
  - eexists. split; [vm_compute; reflexivity | reflexivity].
  - vm_compute; reflexivity.
  - reflexivity.
  - exists s'. rewrite Hbase in Hrun. repeat split; assumption.
Defined.

(** A pointer type is stored directly in the interface; its kind byte
    carries [KindDirectIface], which [GetKind] strips. *)
Example GetKind_strips_direct_flag :
  kind <$> demo_rodata !! 4352 = Some (Z.lor KindPointer KindDirectIface) /\
  result (GetKind Arch64 (mkAny 4352 64)) demo = Some KindPointer.
Proof. split; vm_compute; reflexivity. Qed.

(** *** Runs of bytes *)

Lemma load_bytes_length (m : gmap Z Z) (p : Z) (n : nat) (bs : list Z) :
  load_bytes m p n = Some bs -> length bs = n.
Proof.
  revert p bs. induction n as [|n IH]; intros p bs; simpl.
  - by intros [= <-].
  - destruct (m !! p) as [b|]; [|done].
    destruct (load_bytes m (p + 1) n) as [l|] eqn:El; [|done].
    intros [= <-]. simpl. f_equal. by eapply IH.
Qed.

Lemma load_bytes_cell (m : gmap Z Z) (p : Z) (n : nat) (bs : list Z)
      (i : nat) :
  load_bytes m p n = Some bs -> (i < n)%nat ->
  exists b, m !! (p + Z.of_nat i) = Some b /\ bs !! i = Some b.
Proof.
  revert p bs i. induction n as [|n IH]; intros p bs i; simpl.
  - lia.
  - destruct (m !! p) as [b|] eqn:Eb; [|done].
    destruct (load_bytes m (p + 1) n) as [l|] eqn:El; [|done].
    intros [= <-] Hi. destruct i as [|i].
    + exists b. by rewrite Z.add_0_r.
    + destruct (IH _ _ i El) as (c & Hc & Hl); [lia |].
      exists c. split; [|exact Hl].
      rewrite <- Hc. f_equal. lia.
Qed.

Lemma load_bytes_take (m : gmap Z Z) (p : Z) (n k : nat) (bs : list Z) :
  load_bytes m p n = Some bs -> (k <= n)%nat ->
  load_bytes m p k = Some (take k bs).
Proof.
  revert p bs k. induction n as [|n IH]; intros p bs k; simpl.
  - intros [= <-] Hk. by replace k with 0%nat by lia.
  - destruct (m !! p) as [b|] eqn:Eb; [|done].
    destruct (load_bytes m (p + 1) n) as [l|] eqn:El; [|done].
    intros [= <-] Hk. destruct k as [|k]; [done |].
    simpl. rewrite Eb, (IH _ _ k El) by lia. done.
Qed.

Lemma load_bytes_insert_out (m : gmap Z Z) (p q b : Z) (n : nat) :
  (forall i, (i < n)%nat -> q <> p + Z.of_nat i) ->
  load_bytes (<[q := b]> m) p n = load_bytes m p n.
Proof.
  revert p. induction n as [|n IH]; intros p Hq; simpl; [done |].
  rewrite lookup_insert_ne.
  2:{ specialize (Hq 0%nat). rewrite Z.add_0_r in Hq. apply Hq. lia. }
  rewrite IH; [done |].
  intros i Hi. specialize (Hq (S i)). rewrite Nat2Z.inj_succ in Hq.
  replace (p + 1 + Z.of_nat i) with (p + Z.succ (Z.of_nat i)) by lia.
  apply Hq. lia.
Qed.

Lemma load_bytes_insert_in (m : gmap Z Z) (p b : Z) (n i : nat)
      (bs : list Z) :
  load_bytes m p n = Some bs -> (i < n)%nat ->
  load_bytes (<[p + Z.of_nat i := b]> m) p n = Some (<[i := b]> bs).
Proof.
  revert p bs i. induction n as [|n IH]; intros p bs i; simpl; [lia |].
  destruct (m !! p) as [c|] eqn:Ec; [|done].
  destruct (load_bytes m (p + 1) n) as [l|] eqn:El; [|done].
  intros [= <-] Hi. destruct i as [|i].
  - rewrite Z.add_0_r, lookup_insert_eq.
    rewrite load_bytes_insert_out by (intros; lia). by rewrite El.
  - rewrite lookup_insert_ne by lia. rewrite Ec.
    replace (p + Z.of_nat (S i)) with (p + 1 + Z.of_nat i) by lia.
    rewrite (IH _ _ i El) by lia. done.
Qed.

Lemma load_bytes_below_top (m : gmap Z Z) (p : Z) (n : nat) (bs : list Z)
      (i : nat) :
  load_bytes m p n = Some bs -> (i < n)%nat -> p + Z.of_nat i < top m.
Proof.
  intros Hbs Hi. destruct (load_bytes_cell _ _ _ _ i Hbs Hi) as (b & Hb & _).
  by eapply top_above.
Qed.

(** *** Slices against string views *)

Lemma slice_ok_content (sl : byteslice) (s : Machine) :
  slice_ok sl s -> is_Some (slice_content sl s).
Proof.
  intros [Hlen [bs Hbs]]. unfold slice_content.
  erewrite load_bytes_take; [done | exact Hbs | lia].
Qed.

Lemma append_realloc_run (growcap : Z -> Z -> Z) (sl : byteslice)
      (vs old : list Z) (s : Machine) :
  bcap sl < blen sl + Z.of_nat (length vs) ->
  slice_content sl s = Some old ->
  append growcap sl vs s
  = Some (mkSlice (top (mem s)) (blen sl + Z.of_nat (length vs))
            (growcap (bcap sl) (blen sl + Z.of_nat (length vs))),
          after_alloc 1
            (old ++ vs ++
               replicate
                 (Z.to_nat (growcap (bcap sl)
                              (blen sl + Z.of_nat (length vs))
                            - (blen sl + Z.of_nat (length vs)))) 0) s).
Proof.
  intros Hfull Hold. unfold append.
  destruct (Z.leb_spec (blen sl + Z.of_nat (length vs)) (bcap sl)); [lia |].
  by rewrite Hold.
Qed.

(** C4: let [v = ByteString(bytes)].  Before any reallocation, storing
    [b] at [bytes[i]], for [i] within the length at the call, makes the
    view read [b] at [i] (with the rest of its content as it was).  An
    [append] beyond the capacity moves the slice to a new backing array
    and leaves the view's content as it was; storing into the new
    array, at any index of the new slice, does not change the view. *)
Theorem ByteString_aliasing (tgt : arch) (growcap : Z -> Z -> Z)
        (sl : byteslice) (s : Machine) :
  slice_ok sl s ->
  exists v s0 bs,
    ByteString tgt sl s = Some (v, s0) /\
    string_content v s0 = Some bs /\
    (forall i b, 0 <= i < blen sl ->
       exists s1,
         slice_set sl i b s0 = Some (tt, s1) /\
         result (string_at v i) s1 = Some b /\
         string_content v s1 = Some (<[Z.to_nat i := b]> bs)) /\
    (forall vs, bcap sl < blen sl + Z.of_nat (length vs) ->
       exists sl' s1,
         append growcap sl vs s0 = Some (sl', s1) /\
         (0 < bcap sl -> bptr sl' <> bptr sl) /\
         string_content v s1 = Some bs /\
         forall j b, 0 <= j < blen sl' ->
           exists s2,
             slice_set sl' j b s1 = Some (tt, s2) /\
             string_content v s2 = Some bs).
Proof.
  intros Hok. pose proof Hok as [Hlen [all Hall]].
  destruct (slice_ok_content _ _ Hok) as [bs Hbs].
  set (s0 := after_alloc (SystemPointerSize tgt) (slice_cells sl) s).
  assert (Hp : preserves s s0)
    by apply preserves_alloc, SystemPointerSize_pos.
  assert (Hbs0 : load_bytes (mem s0) (bptr sl) (Z.to_nat (blen sl)) = Some bs)
    by (eapply load_bytes_preserved; [exact Hp | exact Hbs]).
  exists (mkString (bptr sl) (blen sl)), s0, bs.
  split; [apply ByteString_run |]. split; [exact Hbs0 |]. split.
  - intros i b Hi.
    destruct (load_bytes_cell _ _ _ _ (Z.to_nat i) Hbs0) as (c & Hc & _);
      [lia |].
    rewrite Z2Nat.id in Hc by lia.
    exists (with_mem (insert (bptr sl + i) b) s0). split; [|split].
    + unfold slice_set.
      destruct (Z.leb_spec 0 i); [|lia].
      destruct (Z.ltb_spec i (blen sl)); [|lia].
      cbn [andb]. by eapply store_Some.
    + unfold result, string_at. cbn [sptr slen].
      destruct (Z.leb_spec 0 i); [|lia].
      destruct (Z.ltb_spec i (blen sl)); [|lia].
      cbn [andb]. erewrite load_Some; [reflexivity |].
      cbn [with_mem mem]. apply lookup_insert_eq.
    + unfold string_content. cbn [sptr slen with_mem mem].
      replace (bptr sl + i) with (bptr sl + Z.of_nat (Z.to_nat i)) by lia.
      apply load_bytes_insert_in; [exact Hbs0 | lia].
  - intros vs Hfull.
    eexists _, _. split; [by apply append_realloc_run |].
    set (n := blen sl + Z.of_nat (length vs)).
    set (cells := bs ++ vs ++ _).
    set (s1 := after_alloc 1 cells s0).
    assert (Hp1 : preserves s0 s1) by (by apply preserves_alloc).
    assert (Hbs1 : load_bytes (mem s1) (bptr sl) (Z.to_nat (blen sl))
                   = Some bs)
      by (eapply load_bytes_preserved; [exact Hp1 | exact Hbs0]).
    assert (Hall0 : load_bytes (mem s0) (bptr sl) (Z.to_nat (bcap sl))
                    = Some all)
      by (eapply load_bytes_preserved; [exact Hp | exact Hall]).
    split; [|split; [exact Hbs1 |]].
    + cbn [bptr]. intros Hcap Heq.
      assert (Hpos : (0 < Z.to_nat (bcap sl))%nat) by lia.
      pose proof (load_bytes_below_top _ _ _ _ 0%nat Hall0 Hpos). lia.
    + intros j b Hj. cbn [blen] in Hj. fold n in Hj.
      assert (Hlenbs : length bs = Z.to_nat (blen sl))
        by (by eapply load_bytes_length).
      assert (Hcell : is_Some (cells !! Z.to_nat j)).
      { apply lookup_lt_is_Some. unfold cells.
        rewrite !length_app. unfold n in Hj. lia. }
      destruct Hcell as [c Hc].
      pose proof (after_alloc_cell 1 cells s0 (Z.to_nat j) c
                    ltac:(lia) Hc) as Hmap.
      rewrite Z.mul_1_r, Z2Nat.id in Hmap by lia.
      exists (with_mem (insert (top (mem s0) + j) b) s1). split.
      * unfold slice_set. cbn [bptr blen]. fold n.
        destruct (Z.leb_spec 0 j); [|lia].
        destruct (Z.ltb_spec j n); [|lia].
        cbn [andb]. by eapply store_Some.
      * unfold string_content. cbn [sptr slen with_mem mem].
        rewrite load_bytes_insert_out; [exact Hbs1 |].
        intros i Hi.
        pose proof (load_bytes_below_top _ _ _ _ i Hbs0 Hi). lia.
Qed.

Lemma ByteString_aliasing_witness :
  slice_ok demo_slice demo /\
  exists v s0,
    ByteString Arch64 demo_slice demo = Some (v, s0) /\
    string_content v s0 = Some [104; 101; 108; 108; 111] /\
    (exists s1,
        slice_set demo_slice 0 72 s0 = Some (tt, s1) /\
        string_content v s1 = Some [72; 101; 108; 108; 111]) /\
    (exists sl' s1 s2,
        append demo_growcap demo_slice [33] s0 = Some (sl', s1) /\
        slice_set sl' 0 74 s1 = Some (tt, s2) /\
        string_content v s2 = Some [104; 101; 108; 108; 111]).
Proof.
  assert (Hok : slice_ok demo_slice demo).
  { split; [cbn; lia |]. eexists. vm_compute. reflexivity. }
  split; [exact Hok |].
  destruct (ByteString_aliasing Arch64 demo_growcap demo_slice demo Hok)
    as (v & s0 & bs & Hrun & Hbs & Hset & Happ).
  assert (Hbs' : bs = [104; 101; 108; 108; 111]).
  { rewrite ByteString_run in Hrun. inversion Hrun; subst v s0.
    vm_compute in Hbs. by inversion Hbs. }
  subst bs. exists v, s0.
  split; [exact Hrun |]. split; [exact Hbs |]. split.
  - destruct (Hset 0 72) as (s1 & H1 & _ & H2); [cbn; lia |].
    exists s1. split; [exact H1 | exact H2].
  - destruct (Happ [33]) as (sl' & s1 & H1 & _ & _ & H2); [cbn; lia |].
    assert (Hlen : 0 <= 0 < blen sl').
    { rewrite ByteString_run in Hrun. inversion Hrun; subst v s0.
      rewrite (append_realloc_run _ _ _ [104; 101; 108; 108; 111]) in H1;
        [| cbn; lia | vm_compute; reflexivity].
      inversion H1; subst sl'. cbn. lia. }
    destruct (H2 0 74 Hlen) as (s2 & H3 & H4).
    exists sl', s1, s2. repeat split; assumption.
Defined.

(** ** Further properties of the operators *)

(** *** What the accessors return, and when they fault *)

Lemma GetKind_result (tgt : arch) (v : any) (s : Machine) :
  result (GetKind tgt v) s
  = (fun td => mask_kind (kind td)) <$> rodata s !! itype v.
Proof.
  destruct (rodata s !! itype v) as [td|] eqn:E.
  - unfold result. by erewrite GetKind_run.
  - unfold result, GetKind, new_var.
    erewrite bind_Some by reflexivity.
    erewrite bind_Some.
    2:{ apply load_Some. unfold AnyInternal.Type_. rewrite Z.add_0_r.
        by apply var_cell0. }
    unfold bind, load_type. cbn [after_alloc with_mem rodata].
    by rewrite E.
Qed.

Lemma GetTypeHash_result (tgt : arch) (v : any) (s : Machine) :
  result (GetTypeHash tgt v) s = Hash <$> rodata s !! itype v.
Proof.
  destruct (rodata s !! itype v) as [td|] eqn:E.
  - unfold result. by erewrite GetTypeHash_run.
  - unfold result, GetTypeHash, new_var.
    erewrite bind_Some by reflexivity.
    erewrite bind_Some.
    2:{ apply load_Some. unfold AnyInternal.Type_. rewrite Z.add_0_r.
        by apply var_cell0. }
    unfold bind, load_type. cbn [after_alloc with_mem rodata].
    by rewrite E.
Qed.

Lemma result_None {A : Type} (c : M A) (s : Machine) :
  result c s = None <-> c s = None.
Proof.
  unfold result. destruct (c s) as [[a s']|]; split; congruence.
Qed.

Lemma GetKind_None_iff (tgt : arch) (v : any) (s : Machine) :
  GetKind tgt v s = None <-> rodata s !! itype v = None.
Proof.
  rewrite <- result_None, GetKind_result.
  destruct (rodata s !! itype v); split; intros; simplify_eq/=; done.
Qed.

Lemma GetTypeHash_None_iff (tgt : arch) (v : any) (s : Machine) :
  GetTypeHash tgt v s = None <-> rodata s !! itype v = None.
Proof.
  rewrite <- result_None, GetTypeHash_result.
  destruct (rodata s !! itype v); split; intros; simplify_eq/=; done.
Qed.

(** *** Frames *)

Lemma Invent_preserves (tgt : arch) (data tp : Z) (r : any)
      (s s' : Machine) :
  Invent tgt data tp s = Some (r, s') -> preserves s s'.
Proof.
  rewrite Invent_run. intros [= _ <-].
  pose proof (SystemPointerSize_pos tgt) as Hps.
  apply preserves_insert_fresh; [|apply top_fresh; lia].
  apply preserves_insert_fresh; [|apply top_fresh; lia].
  by apply preserves_alloc.
Qed.

(** X3: the three accessors are read-only.  Whenever one of them
    returns, every cell that existed before the call holds what it
    held and the descriptors are the same; [GetTypePointer] always
    returns. *)
Theorem accessors_read_only (tgt : arch) (v : any) (s : Machine) :
  (exists s', GetTypePointer tgt v s = Some (itype v, s') /\
              preserves s s') /\
  (forall h s', GetTypeHash tgt v s = Some (h, s') -> preserves s s') /\
  (forall k s', GetKind tgt v s = Some (k, s') -> preserves s s').
Proof.
  pose proof (SystemPointerSize_pos tgt) as Hps.
  split; [|split].
  - eexists. split; [apply GetTypePointer_run |]. by apply preserves_alloc.
  - intros h s' Hrun.
    destruct (rodata s !! itype v) as [td|] eqn:E.
    + rewrite (GetTypeHash_run _ _ td) in Hrun by done.
      inversion Hrun; subst. by apply preserves_alloc.
    + apply (GetTypeHash_None_iff tgt) in E. congruence.
  - intros k s' Hrun.
    destruct (rodata s !! itype v) as [td|] eqn:E.
    + rewrite (GetKind_run _ _ td) in Hrun by done.
      inversion Hrun; subst. by apply preserves_alloc.
    + apply (GetKind_None_iff tgt) in E. congruence.
Qed.

(** *** Spoof and Invent, composed *)

Lemma result_bind {A B : Type} (c : M A) (k : A -> M B) (s s' : Machine)
      (a : A) :
  c s = Some (a, s') -> result (bind c k) s = result (k a) s'.
Proof. intros H. unfold result. by erewrite bind_Some. Qed.

Lemma Spoof_result (tgt : arch) (a b : any) (s : Machine) :
  result (Spoof tgt a b) s = Some (mkAny (itype b) (idata a)).
Proof. unfold result. by rewrite Spoof_run. Qed.

Lemma Invent_result (tgt : arch) (data tp : Z) (s : Machine) :
  result (Invent tgt data tp) s = Some (mkAny tp data).
Proof. unfold result. by rewrite Invent_run. Qed.

Lemma Spoof_rodata (tgt : arch) (a b r : any) (s s' : Machine) :
  Spoof tgt a b s = Some (r, s') -> rodata s' = rodata s.
Proof. intros H. by apply Spoof_preserves in H as [Hr _]. Qed.

(** X4: every inspection of [Spoof(a, b)] answers as for the donor
    [b]: its kind and its type hash are [b]'s, and they fault exactly
    when they fault on [b] (a nil donor gives a value with no
    descriptor). *)
Theorem Spoof_inspection_follows_donor (tgt : arch) (a b : any)
        (s : Machine) :
  exists r s',
    Spoof tgt a b s = Some (r, s') /\
    result (GetKind tgt r) s' = result (GetKind tgt b) s /\
    result (GetTypeHash tgt r) s' = result (GetTypeHash tgt b) s /\
    (GetKind tgt r s' = None <-> GetKind tgt b s = None).
Proof.
  eexists _, _. split; [apply Spoof_run |].
  set (s' := with_mem _ _).
  assert (Hr : rodata s' = rodata s) by reflexivity.
  split; [|split].
  - by rewrite !GetKind_result, Hr.
  - by rewrite !GetTypeHash_result, Hr.
  - by rewrite !GetKind_None_iff, Hr.
Qed.

(** X5: spoofing twice keeps the first source's data and the last
    donor's type: [Spoof(Spoof(a, b), c)] is [Spoof(a, c)], and a
    spoofed value used as donor passes on the type it carries,
    [Spoof(a, Spoof(b, c))] is [Spoof(a, c)]. *)
Theorem Spoof_last_donor_wins (tgt : arch) (a b c : any) (s : Machine) :
  result (let* r := Spoof tgt a b in Spoof tgt r c) s
  = Some (mkAny (itype c) (idata a)) /\
  result (let* r := Spoof tgt b c in Spoof tgt a r) s
  = Some (mkAny (itype c) (idata a)) /\
  result (Spoof tgt a c) s = Some (mkAny (itype c) (idata a)).
Proof.
  split; [|split].
  - erewrite result_bind by apply Spoof_run.
    cbv beta. by rewrite Spoof_result.
  - erewrite result_bind by apply Spoof_run.
    cbv beta. by rewrite Spoof_result.
  - apply Spoof_result.
Qed.

(** X6: a forgery is undone by spoofing back with the original as
    donor: [Spoof(Spoof(a, b), a)] is [a]; and [Spoof(a, a)] is [a]. *)
Theorem Spoof_back_restores (tgt : arch) (a b : any) (s : Machine) :
  result (let* r := Spoof tgt a b in Spoof tgt r a) s = Some a /\
  result (Spoof tgt a a) s = Some a.
Proof.
  split.
  - erewrite result_bind by apply Spoof_run.
    cbv beta. rewrite Spoof_result. by destruct a.
  - rewrite Spoof_result. by destruct a.
Qed.

(** X7: [Spoof(a, b)] returns the value [Invent] builds from [a]'s data
    pointer and [GetTypePointer(b)]. *)
Theorem Spoof_is_Invent_of_parts (tgt : arch) (a b : any)
        (s1 s2 : Machine) :
  result (Spoof tgt a b) s1 = result (Invent_as tgt (idata a) b) s2.
Proof.
  rewrite Spoof_result. unfold Invent_as.
  erewrite result_bind by apply GetTypePointer_run.
  cbv beta. by rewrite Invent_result.
Qed.

(** X8: [Invent] puts a value back together from its two parts:
    [Invent] of [a]'s data pointer and [GetTypePointer(a)] is [a]. *)
Theorem Invent_rebuilds_value (tgt : arch) (a : any) (s : Machine) :
  result (Invent_as tgt (idata a) a) s = Some a.
Proof.
  unfold Invent_as.
  erewrite result_bind by apply GetTypePointer_run.
  cbv beta. rewrite Invent_result. by destruct a.
Qed.

(** X9: [Invent] validates nothing and touches nothing: for every data
    pointer and every type pointer, nil and unmapped ones included, it
    returns the header made of the two, and every cell that existed
    keeps its content, the bytes at the data pointer among them. *)
Theorem Invent_performs_no_validation (tgt : arch) (data typePointer : Z)
        (s : Machine) :
  exists s',
    Invent tgt data typePointer s = Some (mkAny typePointer data, s') /\
    preserves s s' /\
    (forall n bs, load_bytes (mem s) data n = Some bs ->
                  load_bytes (mem s') data n = Some bs).
Proof.
  eexists. split; [apply Invent_run |].
  set (s' := with_mem _ _).
  assert (Hp : preserves s s') by (eapply Invent_preserves, Invent_run).
  split; [exact Hp |].
  intros n bs Hbs. by eapply load_bytes_preserved.
Qed.

(** X10: a value invented with [x]'s type pointer is inspected as [x]
    is: same kind and same type hash, wherever its data pointer
    points. *)
Theorem Invent_inspection_follows_type (tgt : arch) (ptr : Z) (x : any)
        (s : Machine) :
  result (let* r := Invent_as tgt ptr x in GetKind tgt r) s
  = result (GetKind tgt x) s /\
  result (let* r := Invent_as tgt ptr x in GetTypeHash tgt r) s
  = result (GetTypeHash tgt x) s.
Proof.
  assert (Hrun : exists s',
             Invent_as tgt ptr x s = Some (mkAny (itype x) ptr, s') /\
             rodata s' = rodata s).
  { unfold Invent_as. erewrite bind_Some by apply GetTypePointer_run.
    eexists. split; [apply Invent_run | reflexivity]. }
  destruct Hrun as (s' & Hrun & Hr).
  split.
  - erewrite result_bind by exact Hrun.
    cbv beta. by rewrite !GetKind_result, Hr.
  - erewrite result_bind by exact Hrun.
    cbv beta. by rewrite !GetTypeHash_result, Hr.
Qed.

(** *** ByteString: capacity, empty slices, appends in place *)

Lemma load_bytes_app (m : gmap Z Z) (p : Z) (n1 n2 : nat)
      (l1 l2 : list Z) :
  load_bytes m p n1 = Some l1 ->
  load_bytes m (p + Z.of_nat n1) n2 = Some l2 ->
  load_bytes m p (n1 + n2) = Some (l1 ++ l2).
Proof.
  revert p l1. induction n1 as [|n1 IH]; intros p l1; simpl.
  - intros [= <-]. by rewrite Z.add_0_r.
  - destruct (m !! p) as [b|] eqn:Eb; [|done].
    destruct (load_bytes m (p + 1) n1) as [l|] eqn:El; [|done].
    intros [= <-] H2.
    rewrite (IH (p + 1) l El); [done |].
    rewrite <- H2. f_equal. lia.
Qed.

Lemma load_bytes_drop (m : gmap Z Z) (p : Z) (n k : nat) (bs : list Z) :
  load_bytes m p n = Some bs -> (k <= n)%nat ->
  load_bytes m (p + Z.of_nat k) (n - k) = Some (drop k bs).
Proof.
  revert p bs k. induction n as [|n IH]; intros p bs k; simpl.
  - intros [= <-] Hk. replace k with 0%nat by lia. done.
  - destruct (m !! p) as [b|] eqn:Eb; [|done].
    destruct (load_bytes m (p + 1) n) as [l|] eqn:El; [|done].
    intros [= <-] Hk. destruct k as [|k].
    + rewrite Z.add_0_r. simpl. by rewrite Eb, El.
    + replace (p + Z.of_nat (S k)) with (p + 1 + Z.of_nat k) by lia.
      simpl. apply IH; [exact El | lia].
Qed.

(** Writing [vs] over mapped cells: the cells then hold [vs], every
    other cell is as before. *)
Lemma store_bytes_run (p : Z) (vs : list Z) (s : Machine) :
  is_Some (load_bytes (mem s) p (length vs)) ->
  exists s',
    store_bytes p vs s = Some (tt, s') /\
    rodata s' = rodata s /\
    load_bytes (mem s') p (length vs) = Some vs /\
    forall k, (k < p \/ p + Z.of_nat (length vs) <= k) ->
              mem s' !! k = mem s !! k.
Proof.
  revert p s. induction vs as [|v vs IH]; intros p s [old Hold].
  - exists s. by repeat split.
  - cbn [length load_bytes] in Hold.
    destruct (mem s !! p) as [b|] eqn:Eb; [|done].
    destruct (load_bytes (mem s) (p + 1) (length vs)) as [l|] eqn:El;
      [|done].
    set (s1 := with_mem (insert p v) s).
    assert (H1 : load_bytes (mem s1) (p + 1) (length vs) = Some l).
    { cbn [s1 with_mem mem]. rewrite load_bytes_insert_out; [done |].
      intros; lia. }
    destruct (IH (p + 1) s1 (ex_intro _ l H1)) as (s' & Hrun & Hr & Hl & Ho).
    exists s'. split; [|split; [|split]].
    + cbn [store_bytes]. erewrite bind_Some by (by eapply store_Some).
      exact Hrun.
    + by rewrite Hr.
    + cbn [length load_bytes]. rewrite Hl.
      rewrite Ho by lia. cbn [s1 with_mem mem].
      by rewrite lookup_insert_eq.
    + intros k Hk. rewrite Ho by (cbn [length] in Hk; lia).
      cbn [s1 with_mem mem]. rewrite lookup_insert_ne; [done |].
      cbn [length] in Hk. lia.
Qed.

Lemma load_bytes_agree (m m' : gmap Z Z) (p : Z) (n : nat) :
  (forall i, (i < n)%nat -> m' !! (p + Z.of_nat i) = m !! (p + Z.of_nat i)) ->
  load_bytes m' p n = load_bytes m p n.
Proof.
  revert p. induction n as [|n IH]; intros p H; simpl; [done |].
  pose proof (H 0%nat ltac:(lia)) as H0. rewrite Z.add_0_r in H0.
  rewrite H0, IH; [done |].
  intros i Hi. specialize (H (S i) ltac:(lia)).
  by replace (p + 1 + Z.of_nat i) with (p + Z.of_nat (S i)) by lia.
Qed.

Lemma append_in_place_run (growcap : Z -> Z -> Z) (sl : byteslice)
      (vs all : list Z) (s : Machine) :
  0 <= blen sl ->
  blen sl + Z.of_nat (length vs) <= bcap sl ->
  load_bytes (mem s) (bptr sl) (Z.to_nat (bcap sl)) = Some all ->
  exists s',
    append growcap sl vs s
    = Some (mkSlice (bptr sl) (blen sl + Z.of_nat (length vs)) (bcap sl),
            s') /\
    rodata s' = rodata s /\
    load_bytes (mem s') (bptr sl + blen sl) (length vs) = Some vs /\
    forall k, (k < bptr sl + blen sl \/
               bptr sl + blen sl + Z.of_nat (length vs) <= k) ->
              mem s' !! k = mem s !! k.
Proof.
  intros Hlen Hfit Hall.
  assert (Hroom : is_Some (load_bytes (mem s) (bptr sl + blen sl)
                             (length vs))).
  { pose proof (load_bytes_drop _ _ _ (Z.to_nat (blen sl)) _ Hall
                  ltac:(lia)) as Hd.
    rewrite Z2Nat.id in Hd by lia.
    erewrite load_bytes_take; [done | exact Hd | lia]. }
  destruct (store_bytes_run _ _ _ Hroom) as (s' & Hrun & Hr & Hl & Ho).
  exists s'. split; [|by repeat split].
  unfold append.
  destruct (Z.leb_spec (blen sl + Z.of_nat (length vs)) (bcap sl)); [|lia].
  by erewrite bind_Some by exact Hrun.
Qed.

(** The state a caller is in after [v = ByteString(sl)] and an
    [append] to [sl] that fits its capacity. *)
Lemma append_in_place_after_ByteString (tgt : arch)
      (growcap : Z -> Z -> Z) (sl : byteslice) (vs : list Z) (s : Machine) :
  slice_ok sl s ->
  blen sl + Z.of_nat (length vs) <= bcap sl ->
  exists bs s1,
    string_content (mkString (bptr sl) (blen sl))
      (after_alloc (SystemPointerSize tgt) (slice_cells sl) s) = Some bs /\
    append growcap sl vs
      (after_alloc (SystemPointerSize tgt) (slice_cells sl) s)
    = Some (mkSlice (bptr sl) (blen sl + Z.of_nat (length vs)) (bcap sl),
            s1) /\
    load_bytes (mem s1) (bptr sl) (Z.to_nat (blen sl)) = Some bs /\
    load_bytes (mem s1) (bptr sl)
      (Z.to_nat (blen sl + Z.of_nat (length vs))) = Some (bs ++ vs).
Proof.
  intros Hok Hfit. pose proof Hok as [Hlen [all Hall]].
  destruct (slice_ok_content _ _ Hok) as [bs Hbs].
  set (s0 := after_alloc (SystemPointerSize tgt) (slice_cells sl) s).
  assert (Hp : preserves s s0)
    by apply preserves_alloc, SystemPointerSize_pos.
  assert (Hbs0 : load_bytes (mem s0) (bptr sl) (Z.to_nat (blen sl)) = Some bs)
    by (eapply load_bytes_preserved; [exact Hp | exact Hbs]).
  assert (Hall0 : load_bytes (mem s0) (bptr sl) (Z.to_nat (bcap sl))
                  = Some all)
    by (eapply load_bytes_preserved; [exact Hp | exact Hall]).
  destruct (append_in_place_run growcap sl vs all s0 ltac:(lia) Hfit Hall0)
    as (s1 & Hrun & Hr & Hnew & Hold).
  assert (Hbs1 : load_bytes (mem s1) (bptr sl) (Z.to_nat (blen sl))
                 = Some bs).
  { rewrite <- Hbs0. apply load_bytes_agree. intros i Hi.
    apply Hold. lia. }
  exists bs, s1. split; [exact Hbs0 |]. split; [exact Hrun |].
  split; [exact Hbs1 |].
  replace (Z.to_nat (blen sl + Z.of_nat (length vs)))
    with (Z.to_nat (blen sl) + length vs)%nat by lia.
  apply load_bytes_app; [exact Hbs1 |].
  by rewrite Z2Nat.id by lia.
Qed.

(** X11: an [append] that fits the capacity leaves the view made by
    [ByteString] as it was: the slice keeps its backing array and grows
    by the appended bytes, while the view keeps the length it got at
    the call and its content. *)
Theorem ByteString_view_survives_append_in_place (tgt : arch)
        (growcap : Z -> Z -> Z) (sl : byteslice) (vs : list Z)
        (s : Machine) :
  slice_ok sl s ->
  blen sl + Z.of_nat (length vs) <= bcap sl ->
  exists v s0 bs sl' s1,
    ByteString tgt sl s = Some (v, s0) /\
    string_content v s0 = Some bs /\
    append growcap sl vs s0 = Some (sl', s1) /\
    bptr sl' = bptr sl /\
    blen sl' = blen sl + Z.of_nat (length vs) /\
    bcap sl' = bcap sl /\
    slen v = blen sl /\
    string_content v s1 = Some bs /\
    slice_content sl' s1 = Some (bs ++ vs).
Proof.
  intros Hok Hfit.
  destruct (append_in_place_after_ByteString tgt growcap sl vs s Hok Hfit)
    as (bs & s1 & Hbs0 & Hrun & Hbs1 & Hall1).
  eexists _, _, bs, _, s1.
  split; [apply ByteString_run |]. split; [exact Hbs0 |].
  split; [exact Hrun |]. repeat split; assumption.
Qed.

Lemma ByteString_view_survives_append_in_place_witness :
  exists v s0 sl' s1,
    ByteString Arch64 (mkSlice 80 3 5) demo = Some (v, s0) /\
    append demo_growcap (mkSlice 80 3 5) [112; 33] s0 = Some (sl', s1) /\
    string_content v s1 = Some [104; 101; 108] /\
    slice_content sl' s1 = Some [104; 101; 108; 112; 33].
Proof.
  assert (Hok : slice_ok (mkSlice 80 3 5) demo).
  { split; [cbn; lia |]. eexists. vm_compute. reflexivity. }
  destruct (ByteString_view_survives_append_in_place Arch64 demo_growcap
              (mkSlice 80 3 5) [112; 33] demo Hok ltac:(cbn; lia))
    as (v & s0 & bs & sl' & s1 & Hrun & Hbs & Happ & _ & _ & _ & _ & Hv & Hs).
  assert (Hbs' : bs = [104; 101; 108]).
  { rewrite ByteString_run in Hrun. inversion Hrun; subst v s0.
    vm_compute in Hbs. by inversion Hbs. }
  subst bs. exists v, s0, sl', s1. repeat split; assumption.
Defined.

(** X12: after an [append] in place the alias is intact.  A store
    through the grown slice at an index below the view's length is read
    through the view; a store at an index the append added is outside
    the view: its content is unchanged and the view cannot be indexed
    there. *)
Theorem ByteString_store_after_append_in_place (tgt : arch)
        (growcap : Z -> Z -> Z) (sl : byteslice) (vs : list Z)
        (s : Machine) :
  slice_ok sl s ->
  blen sl + Z.of_nat (length vs) <= bcap sl ->
  exists v s0 bs sl' s1,
    ByteString tgt sl s = Some (v, s0) /\
    string_content v s0 = Some bs /\
    append growcap sl vs s0 = Some (sl', s1) /\
    forall i b, 0 <= i < blen sl' ->
      exists s2,
        slice_set sl' i b s1 = Some (tt, s2) /\
        (i < blen sl ->
           result (string_at v i) s2 = Some b /\
           string_content v s2 = Some (<[Z.to_nat i := b]> bs)) /\
        (blen sl <= i ->
           result (string_at v i) s2 = None /\
           string_content v s2 = Some bs).
Proof.
  intros Hok Hfit. pose proof Hok as [Hlen _].
  destruct (append_in_place_after_ByteString tgt growcap sl vs s Hok Hfit)
    as (bs & s1 & Hbs0 & Hrun & Hbs1 & Hall1).
  eexists _, _, bs, _, s1.
  split; [apply ByteString_run |]. split; [exact Hbs0 |].
  split; [exact Hrun |].
  intros i b Hi. cbn [blen] in Hi.
  destruct (load_bytes_cell _ _ _ _ (Z.to_nat i) Hall1) as (c & Hc & _);
    [lia |].
  rewrite Z2Nat.id in Hc by lia.
  exists (with_mem (insert (bptr sl + i) b) s1). split; [|split].
  - unfold slice_set. cbn [bptr blen].
    destruct (Z.leb_spec 0 i); [|lia].
    destruct (Z.ltb_spec i (blen sl + Z.of_nat (length vs))); [|lia].
    cbn [andb]. by eapply store_Some.
  - intros Hin. split.
    + unfold result, string_at. cbn [sptr slen].
      destruct (Z.leb_spec 0 i); [|lia].
      destruct (Z.ltb_spec i (blen sl)); [|lia].
      cbn [andb]. erewrite load_Some; [reflexivity |].
      cbn [with_mem mem]. apply lookup_insert_eq.
    + unfold string_content. cbn [sptr slen with_mem mem].
      replace (bptr sl + i) with (bptr sl + Z.of_nat (Z.to_nat i)) by lia.
      apply load_bytes_insert_in; [exact Hbs1 | lia].
  - intros Hout. split.
    + unfold result, string_at. cbn [sptr slen].
      destruct (Z.ltb_spec i (blen sl)); [lia |].
      by rewrite andb_false_r.
    + unfold string_content. cbn [sptr slen with_mem mem].
      rewrite load_bytes_insert_out; [exact Hbs1 |].
      intros j Hj. lia.
Qed.

Lemma ByteString_store_after_append_in_place_witness :
  exists v s0 sl' s1 s2 s3,
    ByteString Arch64 (mkSlice 80 3 5) demo = Some (v, s0) /\
    append demo_growcap (mkSlice 80 3 5) [112; 33] s0 = Some (sl', s1) /\
    slice_set sl' 0 72 s1 = Some (tt, s2) /\
    string_content v s2 = Some [72; 101; 108] /\
    slice_set sl' 4 63 s1 = Some (tt, s3) /\
    string_content v s3 = Some [104; 101; 108].
Proof.
  assert (Hok : slice_ok (mkSlice 80 3 5) demo).
  { split; [cbn; lia |]. eexists. vm_compute. reflexivity. }
  destruct (ByteString_store_after_append_in_place Arch64 demo_growcap
              (mkSlice 80 3 5) [112; 33] demo Hok ltac:(cbn; lia))
    as (v & s0 & bs & sl' & s1 & Hrun & Hbs & Happ & Hset).
  assert (Hbs' : bs = [104; 101; 108]).
  { rewrite ByteString_run in Hrun. inversion Hrun; subst v s0.
    vm_compute in Hbs. by inversion Hbs. }
  subst bs.
  assert (Hlen : blen sl' = 5).
  { rewrite ByteString_run in Hrun. inversion Hrun; subst v s0.
    destruct (append_in_place_after_ByteString Arch64 demo_growcap
                (mkSlice 80 3 5) [112; 33] demo Hok ltac:(cbn; lia))
      as (bs' & s1' & _ & Happ' & _).
    rewrite Happ' in Happ. by inversion Happ. }
  destruct (Hset 0 72 ltac:(lia)) as (s2 & H2 & Hin & _).
  destruct (Hset 4 63 ltac:(lia)) as (s3 & H3 & _ & Hout).
  exists v, s0, sl', s1, s2, s3.
  split; [exact Hrun |]. split; [exact Happ |]. split; [exact H2 |].
  split; [apply Hin; cbn; lia |]. split; [exact H3 |].
  apply Hout. cbn. lia.
Defined.

(** X13: an empty slice, the nil slice included, gives the empty
    string: [ByteString] returns without touching the slice's pointer,
    the view has length 0 and no content, and indexing it faults at
    every index. *)
Theorem ByteString_of_empty_slice (tgt : arch) (sl : byteslice)
        (s : Machine) :
  blen sl = 0 ->
  exists v s',
    ByteString tgt sl s = Some (v, s') /\
    slen v = 0 /\
    string_content v s' = Some [] /\
    forall i, string_at v i s' = None.
Proof.
  intros Hlen. eexists _, _. split; [apply ByteString_run |].
  cbn [slen]. split; [exact Hlen |]. split.
  - unfold string_content. cbn [slen]. by rewrite Hlen.
  - intros i. unfold string_at. cbn [slen]. rewrite Hlen.
    destruct (Z.leb_spec 0 i), (Z.ltb_spec i 0); try lia; reflexivity.
Qed.

Lemma ByteString_of_empty_slice_witness :
  exists v s',
    ByteString Arch64 (mkSlice 0 0 0) demo = Some (v, s') /\
    string_content v s' = Some [].
Proof.
  destruct (ByteString_of_empty_slice Arch64 (mkSlice 0 0 0) demo eq_refl)
    as (v & s' & Hrun & _ & Hc & _).
  exists v, s'. split; assumption.
Defined.

(** ** Further properties of the layout mirror *)

(** X14: a kind byte decodes without ambiguity.  The base kinds are
    the 26 values 1 to 26 and [KindMask] is 31; for every base kind and
    every combination of the two flags, masking gives back the base
    kind, the flag bits give back the flags, and the byte fits a
    [uint8]. *)
Theorem Kind_byte_decodes :
  Kinds_declared = Z.of_nat <$> seq 1 26 /\
  KindMask = 31 /\
  forall k f, k ∈ Kinds_declared -> f ∈ Kind_flag_sets ->
    mask_kind (Z.lor k f) = k /\
    Z.land (Z.lor k f) (Z.lor KindDirectIface KindGCProg) = f /\
    0 <= Z.lor k f < 256.
Proof.
  split; [reflexivity |]. split; [reflexivity |].
  assert (H : Forall (fun k => Forall (fun f =>
               mask_kind (Z.lor k f) = k /\
               Z.land (Z.lor k f) (Z.lor KindDirectIface KindGCProg) = f /\
               0 <= Z.lor k f < 256) Kind_flag_sets) Kinds_declared).
  { apply (bool_decide_unpack _). vm_compute. exact I. }
  intros k f Hk Hf.
  rewrite Forall_forall in H. specialize (H k Hk).
  rewrite Forall_forall in H. exact (H f Hf).
Qed.

Lemma Kind_byte_decodes_witness :
  mask_kind (Z.lor KindPointer KindDirectIface) = KindPointer /\
  Z.land (Z.lor KindPointer KindDirectIface)
         (Z.lor KindDirectIface KindGCProg) = KindDirectIface.
Proof.
  destruct Kind_byte_decodes as (_ & _ & H).
  destruct (H KindPointer KindDirectIface) as (H1 & H2 & _).
  - apply (bool_decide_unpack _). vm_compute. exact I.
  - apply (bool_decide_unpack _). vm_compute. exact I.
  - split; assumption.
Defined.

(** X15: the special top-hash values are exactly the values below
    [MinimumTopHash]: a top-hash byte is one of the five sentinels, or
    it is at least [MinimumTopHash], never both and never neither. *)
Theorem TopHash_sentinels_below_minimum (h : Z) :
  h ∈ TopHash_sentinels <-> 0 <= h < MinimumTopHash.
Proof.
  unfold TopHash_sentinels, LastEmptyCell, EmptyCell, EvacuatedToFirstHalf,
    EvacuatedToSecondHalf, EvacuatedAndEmpty, MinimumTopHash.
  rewrite !elem_of_cons, elem_of_nil. lia.
Qed.

(** X16: the expression for [SystemPointerSize] tests one bit: for
    every [uintptr] narrower than 64 bits it evaluates to 4. *)
Theorem SystemPointerSize_below_64_bits (w : Z) :
  0 <= w < 64 -> SystemPointerSize_at w = 4.
Proof.
  intros Hw. unfold SystemPointerSize_at, uintptr_not, wrap.
  assert (Hpow : 0 < 2 ^ w <= 2 ^ 63).
  { split; [apply Z.pow_pos_nonneg; lia |].
    apply Z.pow_le_mono_r; lia. }
  pose proof (Z.mod_pos_bound (Z.lnot 0) (2 ^ w) ltac:(lia)) as Hm.
  rewrite Z.shiftr_div_pow2 by lia.
  rewrite Z.div_small by lia. reflexivity.
Qed.

Lemma SystemPointerSize_below_64_bits_witness : SystemPointerSize_at 16 = 4.
Proof. apply SystemPointerSize_below_64_bits. lia. Defined.

(** X17: on both targets the compiler places the fields of
    [AnyInternal], [StringInternal] and [SliceInternal] at the offsets
    the operators read and write, one pointer size apart from 0, and
    each structure is as large as the words of the value it is laid
    over. *)
Theorem header_mirrors_match_values (a : arch) (v : any) (str : gostring)
        (sl : byteslice) :
  let ps := SystemPointerSize a in
  field_offsets a AnyInternal_fields
  = [AnyInternal.Type_ ps; AnyInternal.Data ps] /\
  field_offsets a StringInternal_fields
  = [StringInternal.Data ps; StringInternal.Len ps] /\
  field_offsets a SliceInternal_fields
  = [SliceInternal.Data ps; SliceInternal.Len ps; SliceInternal.Cap ps] /\
  sizeof a (TStruct AnyInternal_fields)
  = Z.of_nat (length (any_cells v)) * ps /\
  sizeof a (TStruct StringInternal_fields)
  = Z.of_nat (length (string_cells str)) * ps /\
  sizeof a (TStruct SliceInternal_fields)
  = Z.of_nat (length (slice_cells sl)) * ps.
Proof. destruct a; repeat split; vm_compute; reflexivity. Qed.

(** X18: [BucketDataStart] is 8 on both targets: the keys begin right
    after the top-hash array, at [BucketSize] bytes, with no padding in
    between. *)
Theorem BucketDataStart_is_BucketSize (a : arch) :
  BucketDataStart a = 8 /\
  BucketDataStart a = BucketSize /\
  BucketDataStart a = sizeof a (TStruct BucketInternal_fields).
Proof. destruct a; repeat split; vm_compute; reflexivity. Qed.

(** X19: in [TypeInternal] the kind byte is the last of the four bytes
    that follow [Hash], at offset two pointer sizes plus 7; the
    structure takes four pointer sizes plus 16 bytes, 48 on a 64-bit
    target and 32 on a 32-bit one. *)
Theorem TypeInternal_layout (a : arch) :
  let ps := SystemPointerSize a in
  field_offsets a TypeInternal_fields
  = [0; ps; 2 * ps; 2 * ps + 4; 2 * ps + 5; 2 * ps + 6; 2 * ps + 7;
     2 * ps + 8; 3 * ps + 8; 4 * ps + 8; 4 * ps + 12] /\
  sizeof a (TStruct TypeInternal_fields) = 4 * ps + 16 /\
  sizeof Arch64 (TStruct TypeInternal_fields) = 48 /\
  sizeof Arch32 (TStruct TypeInternal_fields) = 32.
Proof. destruct a; repeat split; vm_compute; reflexivity. Qed.

(** X20: none of the mirrored structures has implicit padding on
    either target: each is exactly as large as its fields together.
    In [InterfaceDescription] this is the work of the explicit four
    bytes after [Hash], which put the function table at two pointer
    sizes plus 8. *)
Theorem mirrors_have_no_padding (a : arch) :
  Forall (fun fs => sizeof a (TStruct fs) = packed_size a fs)
    [StringInternal_fields; SliceInternal_fields; AnyInternal_fields;
     InterfaceInternal_fields; EncodedName_fields; TypeInternal_fields;
     MapInternal_fields; MapOverflow_fields; BucketInternal_fields;
     InterfaceDescription_fields; InterfaceMethod_fields;
     ITypeInternal_fields] /\
  field_offsets a InterfaceDescription_fields
  !! 4%nat = Some (2 * SystemPointerSize a + 8) /\
  sizeof a (TStruct MapInternal_fields) = 5 * SystemPointerSize a + 8.
Proof.
  destruct a; (split; [|split; vm_compute; reflexivity]);
    repeat (apply Forall_cons; split; [vm_compute; reflexivity |]);
    apply Forall_nil_2.
Qed.
